(** * domainr: the search/scrape engine of [checker.go] and the guard of [main.go]

    A shallow embedding of the Go program.  Go maps are [gmap]s that the
    functions take and give back, the browser is a scripted [Page], and
    everything the program does to the outside world (sleeps, writes to
    standard error, page requests) is recorded in the trace of a [World]
    that is threaded through the calls. *)

From Stdlib Require Import ZArith Ascii String List Bool Lia.
From stdpp Require Import base option list strings gmap fin_maps.

Local Open Scope string_scope.
Local Open Scope Z_scope.
Local Open Scope nat_scope.

(** ** Strings *)

(** The two functions of package [strings] whose result depends on Unicode
    tables are the interface of this development: every general theorem
    holds for any implementation of them. *)
Class GoStrings := {
  ToLower : string -> string;
  TrimSpace : string -> string
}.

(** [strings.HasPrefix] and [strings.Contains] work on bytes. *)
Fixpoint HasPrefix (s prefix : string) : bool :=
  match prefix, s with
  | EmptyString, _ => true
  | String _ _, EmptyString => false
  | String p prefix', String c s' => Ascii.eqb c p && HasPrefix s' prefix'
  end.

Fixpoint Contains (s substr : string) : bool :=
  HasPrefix s substr ||
  match s with
  | EmptyString => false
  | String _ s' => Contains s' substr
  end.

(** The ASCII path of [strings.ToLower] and [strings.TrimSpace]: what Go
    computes on a string whose bytes are all below 0x80. *)
Definition lower_byte (c : ascii) : ascii :=
  let n := nat_of_ascii c in
  if (65 <=? n) && (n <=? 90) then ascii_of_nat (n + 32) else c.

Fixpoint ToLower_ascii (s : string) : string :=
  match s with
  | EmptyString => EmptyString
  | String c s' => String (lower_byte c) (ToLower_ascii s')
  end.

(** ['\t', '\n', '\v', '\f', '\r', ' '] *)
Definition is_space (c : ascii) : bool :=
  let n := nat_of_ascii c in
  ((9 <=? n) && (n <=? 13)) || (n =? 32).

Fixpoint TrimLeft_space (s : string) : string :=
  match s with
  | EmptyString => EmptyString
  | String c s' => if is_space c then TrimLeft_space s' else s
  end.

Fixpoint TrimRight_space (s : string) : string :=
  match s with
  | EmptyString => EmptyString
  | String c s' =>
      match TrimRight_space s' with
      | EmptyString => if is_space c then EmptyString else String c EmptyString
      | t => String c t
      end
  end.

Definition TrimSpace_ascii (s : string) : string :=
  TrimRight_space (TrimLeft_space s).

#[export] Instance ascii_strings : GoStrings :=
  {| ToLower := ToLower_ascii; TrimSpace := TrimSpace_ascii |}.

Definition LF : string := String (ascii_of_nat 10) EmptyString.

(** ** Errors *)

(** An argument of a format string that is not an error. *)
Inductive value :=
| VStr (s : string)
| VInt (n : Z)
| VDuration (d : Z).

(** [errors.New], an error made by the browser driver, and [fmt.Errorf]
    with the error it wraps through [%w], if any. *)
#[local] Set Warnings "-register-all".
Inductive error :=
| New (msg : string)
| External (msg : string)
| Errorf (format : string) (args : list value) (wrapped : option error).

#[export] Instance value_eq_dec : EqDecision value.
Proof. solve_decision. Defined.

Fixpoint error_eqb (x y : error) : bool :=
  match x, y with
  | New a, New b => bool_decide (a = b)
  | External a, External b => bool_decide (a = b)
  | Errorf f a w, Errorf g b v =>
      bool_decide (f = g) &&
      bool_decide (a = b) &&
      match w, v with
      | None, None => true
      | Some w', Some v' => error_eqb w' v'
      | _, _ => false
      end
  | _, _ => false
  end.

Definition Unwrap (e : error) : option error :=
  match e with
  | Errorf _ _ w => w
  | _ => None
  end.

(** [errors.Is]: [target] is met somewhere on the chain of wrapped errors. *)
Fixpoint errors_Is (e target : error) : bool :=
  error_eqb e target ||
  match e with
  | Errorf _ _ (Some w) => errors_Is w target
  | _ => false
  end.

Definition errCloudflareBlocked : error := New "blocked by Cloudflare challenge".

(** A Go function result [(T, error)] of the browser driver. *)
Inductive res (A : Type) :=
| Ok (a : A)
| Err (e : error).
Arguments Ok {A} a.
Arguments Err {A} e.

(** ** Data model *)

Inductive DomainStatus :=
| StatusUnknown
| StatusAvailable
| StatusTaken.

Record DomainResult := mkDomainResult {
  Domain : string;
  Status : DomainStatus;
  Price : string
}.

Definition zeroDomainResult : DomainResult := mkDomainResult "" StatusUnknown "".

Definition set_Domain (r : DomainResult) (d : string) : DomainResult :=
  mkDomainResult d (Status r) (Price r).
Definition set_Status (r : DomainResult) (s : DomainStatus) : DomainResult :=
  mkDomainResult (Domain r) s (Price r).
Definition set_Price (r : DomainResult) (p : string) : DomainResult :=
  mkDomainResult (Domain r) (Status r) p.

(** ** The browser, as the program sees it *)

(** What a locator matched: each element with the outcome of reading its
    text. *)
Record Element := mkElement {
  TextContent : res string
}.

(** A result element of the page: what each selector matches inside it and
    what reading each attribute gives.  A [Count] that fails counts 0. *)
Record Article := mkArticle {
  Locator : string -> list Element;
  GetAttribute : string -> res string
}.

(** [locator.First().TextContent()] *)
Definition First_TextContent (l : list Element) : res string :=
  match l with
  | [] => Err (External "timeout: no element matches the locator")
  | el :: _ => TextContent el
  end.

(** ** parseArticle *)

Section Parser.
Context `{GoStrings}.

(** The locator of the heading: the nested path, else any [h2], else none. *)
Definition nameLocator (article : Article) : option (list Element) :=
  let nl := Locator article ".domain-name .name h2" in
  if length nl =? 0 then
    let nl := Locator article "h2" in
    if length nl =? 0 then None else Some nl
  else Some nl.

Definition articleStatus (article : Article) (result : DomainResult) : DomainResult :=
  match GetAttribute article "class" with
  | Ok classes =>
      let classList := ToLower classes in
      if Contains classList " available" then set_Status result StatusAvailable
      else if Contains classList " unavailable" then set_Status result StatusTaken
      else result
  | Err _ => result
  end.

Definition articlePrice (article : Article) (result : DomainResult) : DomainResult :=
  let priceLocator := Locator article ".price strong" in
  if 0 <? length priceLocator then
    match First_TextContent priceLocator with
    | Ok price => set_Price result (TrimSpace price)
    | Err _ => result
    end
  else result.

(** Go returns the pair [(result, err)]; [err = None] is [nil].  The reads
    of the element are reads of the [Article] and leave no trace. *)
Definition parseArticle (article : Article) : DomainResult * option error :=
  let result := zeroDomainResult in
  match nameLocator article with
  | None => (result, Some (Errorf "no domain name found" [] None))
  | Some nl =>
      match First_TextContent nl with
      | Err err => (result, Some (Errorf "getting domain text: %w" [] (Some err)))
      | Ok name =>
          let result := set_Domain result (TrimSpace name) in
          if bool_decide (Domain result = "") then
            (result, Some (Errorf "empty domain name" [] None))
          else
            let result := articleStatus article result in
            let result := articlePrice article result in
            (result, None)
      end
  end.

End Parser.

(** ** The outside world *)

(** An argument of [fmt.Fprintf]. *)
Inductive farg :=
| FVal (v : value)
| FErr (e : error).

(** What a run does to the outside, in the order it does it.  Durations are
    in nanoseconds, as [time.Duration]; the timeout of [WaitFor] is in
    milliseconds, as the driver takes it. *)
Inductive Event :=
| EGoto (url : string)
| EWaitFor (timeout : Z)
| ETitle
| ECount
| EAll
| ESleep (d : Z)
| EStderr (format : string) (args : list farg)
| EPrintDefaults
| EPrintResults (results : list DomainResult)
| EBrowserClose
| EPwStop.

Definition Millisecond : Z := 1000000.
Definition Second : Z := 1000000000.

(** What the site answers to one navigation: the outcome of [Goto], of the
    wait for the first result element, the title ([""] when reading it
    fails), the count the k-th poll of the result locator reports (0 when it
    fails), and the outcome of [All]. *)
Record PageLoad := mkPageLoad {
  goto_err : option error;
  waitfor_err : option error;
  page_title : string;
  poll_count : nat -> nat;
  all_articles : res (list Article)
}.

(** The page: the answer to the n-th navigation of the run, by URL. *)
Definition Page : Type := nat -> string -> PageLoad.

Record World := mkWorld {
  navs : nat;
  trace : list Event
}.

Definition emit (e : Event) (w : World) : World :=
  mkWorld (navs w) (trace w ++ [e]).

Definition Sleep (d : Z) (w : World) : World := emit (ESleep d) w.

Definition navigate (url : string) (w : World) : World :=
  mkWorld (S (navs w)) (trace w ++ [EGoto url]).

(** [wanted[key]] on a [map[string]bool]: [false] for a missing key. *)
Definition wanted_at (wanted : gmap string bool) (key : string) : bool :=
  default false (wanted !! key).

(** What the driver answers while the browser is set up, and the page it
    gives. *)
Record Playwright := mkPlaywright {
  run_err : option error;
  launch_err : bool -> option error;
  newpage_err : option error;
  the_page : Page
}.

(** A call returns or panics. *)
Inductive outcome (A : Type) :=
| Returned (a : A)
| Panicked (msg : string).
Arguments Returned {A} a.
Arguments Panicked {A} msg.

(** ** scrapeResults, searchAndScrape, searchWithRetry *)

Section Engine.
Context `{GoStrings}.

(** The body of the loop over the articles. *)
Definition scrapeArticle (wanted : gmap string bool)
    (found : gmap string DomainResult) (article : Article) : gmap string DomainResult :=
  let '(result, err) := parseArticle article in
  match err with
  | Some _ => found
  | None =>
      let key := ToLower (Domain result) in
      if wanted_at wanted key then <[key := result]> found else found
  end.

(** [loaded] is the document the page shows when the function is called. *)
Definition scrapeResults (loaded : PageLoad) (wanted : gmap string bool)
    (found : gmap string DomainResult) (w : World)
    : option error * gmap string DomainResult * World :=
  let w := emit EAll w in
  match all_articles loaded with
  | Err err => (Some (Errorf "querying results: %w" [] (Some err)), found, w)
  | Ok articles => (None, foldl (scrapeArticle wanted) found articles, w)
  end.

(** The polling loop: [n] iterations are left, the next poll is the [k]-th
    of this page load. *)
Fixpoint pollLoop (n k prevCount : nat) (loaded : PageLoad) (w : World) : World :=
  match n with
  | 0 => w
  | S n' =>
      let w := Sleep (400 * Millisecond) w in
      let w := emit ECount w in
      let count := poll_count loaded k in
      if (0 <? count) && (count =? prevCount) then w
      else pollLoop n' (S k) count loaded w
  end.

Definition stabilize (loaded : PageLoad) (w : World) : World :=
  pollLoop 5 0 0 loaded w.

Definition searchURL (query : string) : string :=
  "https://www.namecheap.com/domains/registration/results/?domain=" ++ query.

Definition searchAndScrape (page : Page) (query : string) (wanted : gmap string bool)
    (found : gmap string DomainResult) (w : World)
    : option error * gmap string DomainResult * World :=
  let url := searchURL query in
  let loaded := page (navs w) url in
  let w := navigate url w in
  match goto_err loaded with
  | Some err => (Some (Errorf "navigating to namecheap: %w" [] (Some err)), found, w)
  | None =>
      let w := emit (EWaitFor 30000) w in
      match waitfor_err loaded with
      | Some err =>
          let w := emit ETitle w in
          if Contains (ToLower (page_title loaded)) "just a moment" then
            (Some (Errorf "%w: page stuck on challenge for %s" [VStr query]
                     (Some errCloudflareBlocked)), found, w)
          else
            (Some (Errorf "waiting for results for %s (possibly rate limited): %w"
                     [VStr query] (Some err)), found, w)
      | None =>
          let w := stabilize loaded w in
          scrapeResults loaded wanted found w
      end
  end.

Definition maxRetries : nat := 3.

(** The wait before attempt number [attempt] (counted from 0). *)
Definition backoff (query : string) (attempt : nat) (w : World) : World :=
  if 0 <? attempt then
    let backoff := (Z.of_nat (attempt * 3) * Second)%Z in
    let w := emit (EStderr ("Retrying %s in %v (attempt %d/%d)..." ++ LF)
                     [FVal (VStr query); FVal (VDuration backoff);
                      FVal (VInt (Z.of_nat (attempt + 1)));
                      FVal (VInt (Z.of_nat maxRetries))]) w in
    Sleep backoff w
  else w.

(** The loop over the attempts: [inl] is a [return] from inside the loop,
    [inr] the value of [lastErr] when the loop runs out. *)
Fixpoint retryLoop (page : Page) (query : string) (wanted : gmap string bool)
    (attempts : list nat) (lastErr : option error)
    (found : gmap string DomainResult) (w : World)
    : (option error + option error) * gmap string DomainResult * World :=
  match attempts with
  | [] => (inr lastErr, found, w)
  | attempt :: attempts' =>
      let w := backoff query attempt w in
      let '(lastErr, found, w) := searchAndScrape page query wanted found w in
      match lastErr with
      | None => (inl None, found, w)
      | Some e =>
          if negb (errors_Is e errCloudflareBlocked) then (inl lastErr, found, w)
          else retryLoop page query wanted attempts' lastErr found w
      end
  end.

Definition searchWithRetry (page : Page) (query : string) (wanted : gmap string bool)
    (found : gmap string DomainResult) (w : World)
    : option error * gmap string DomainResult * World :=
  match retryLoop page query wanted (seq 0 maxRetries) None found w with
  | (inl r, found, w) => (r, found, w)
  | (inr lastErr, found, w) =>
      (Some (Errorf "giving up after %d attempts: %w" [VInt (Z.of_nat maxRetries)] lastErr),
       found, w)
  end.

(** ** CheckDomains *)

Definition buildWanted (domains : list string) : gmap string bool :=
  foldl (fun wanted d => <[ToLower d := true]> wanted) ∅ domains.

(** The loop of the follow-up searches. *)
Fixpoint followUps (page : Page) (wanted : gmap string bool) (domains : list string)
    (found : gmap string DomainResult) (w : World) : gmap string DomainResult * World :=
  match domains with
  | [] => (found, w)
  | d :: domains' =>
      match found !! ToLower d with
      | Some _ => followUps page wanted domains' found w
      | None =>
          let w := Sleep (1500 * Millisecond) w in
          let '(err, found, w) := searchWithRetry page d wanted found w in
          let w :=
            match err with
            | Some err =>
                emit (EStderr ("Warning: failed to check %s: %v" ++ LF)
                        [FVal (VStr d); FErr err]) w
            | None => w
            end in
          followUps page wanted domains' found w
      end
  end.

Definition buildResults (domains : list string) (found : gmap string DomainResult)
    : list DomainResult :=
  foldl (fun results d =>
           let key := ToLower d in
           match found !! key with
           | Some r => (results ++ [r])%list
           | None => (results ++ [mkDomainResult d StatusUnknown ""])%list
           end) [] domains.

(** From the building of [wanted] to the [return]; the map [found] at the
    end is given too, for the invariants. *)
Definition checkWithPage (page : Page) (domains : list string) (w : World)
    : outcome (res (list DomainResult)) * gmap string DomainResult * World :=
  let wanted := buildWanted domains in
  let found : gmap string DomainResult := ∅ in
  match domains !! 0 with
  | None => (Panicked "index out of range [0] with length 0", found, w)
  | Some d0 =>
      let '(err, found, w) := searchWithRetry page d0 wanted found w in
      match err with
      | Some err =>
          (Returned (Err (Errorf "searching for %s: %w" [VStr d0] (Some err))), found, w)
      | None =>
          let '(found, w) := followUps page wanted domains found w in
          (Returned (Ok (buildResults domains found)), found, w)
      end
  end.

(** The deferred calls run on every way out, a panic too.  The call of
    [AddInitScript], whose result the code drops, is not in the trace. *)
Definition CheckDomains (pw : Playwright) (domains : list string) (headless : bool)
    (w : World) : outcome (res (list DomainResult)) * World :=
  match run_err pw with
  | Some err => (Returned (Err (Errorf "launching playwright: %w" [] (Some err))), w)
  | None =>
      match launch_err pw headless with
      | Some err =>
          (Returned (Err (Errorf "launching browser: %w" [] (Some err))), emit EPwStop w)
      | None =>
          match newpage_err pw with
          | Some err =>
              (Returned (Err (Errorf "creating page: %w" [] (Some err))),
               emit EPwStop (emit EBrowserClose w))
          | None =>
              let '(r, _, w) := checkWithPage (the_page pw) domains w in
              (r, emit EPwStop (emit EBrowserClose w))
          end
      end
  end.

End Engine.

(** ** main *)

(** The regular expressions [domainRegex] needs, matched by derivatives. *)
Inductive regex :=
| Void
| Eps
| Class (p : ascii -> bool)
| Seq (r1 r2 : regex)
| Alt (r1 r2 : regex)
| Star (r : regex).

Fixpoint nullable (r : regex) : bool :=
  match r with
  | Void => false
  | Eps => true
  | Class _ => false
  | Seq r1 r2 => nullable r1 && nullable r2
  | Alt r1 r2 => nullable r1 || nullable r2
  | Star _ => true
  end.

Fixpoint deriv (c : ascii) (r : regex) : regex :=
  match r with
  | Void => Void
  | Eps => Void
  | Class p => if p c then Eps else Void
  | Seq r1 r2 =>
      if nullable r1 then Alt (Seq (deriv c r1) r2) (deriv c r2)
      else Seq (deriv c r1) r2
  | Alt r1 r2 => Alt (deriv c r1) (deriv c r2)
  | Star r1 => Seq (deriv c r1) (Star r1)
  end.

(** [MatchString] of an expression anchored by [^] and [$]. *)
Fixpoint MatchString (r : regex) (s : string) : bool :=
  match s with
  | EmptyString => nullable r
  | String c s' => MatchString (deriv c r) s'
  end.

Definition in_range (lo hi : nat) (c : ascii) : bool :=
  (lo <=? nat_of_ascii c) && (nat_of_ascii c <=? hi).

(** [[a-zA-Z]], [[a-zA-Z0-9]], [[a-zA-Z0-9-]] and [\.] *)
Definition alpha (c : ascii) : bool := in_range 97 122 c || in_range 65 90 c.
Definition alnum (c : ascii) : bool := alpha c || in_range 48 57 c.
Definition alnum_hyphen (c : ascii) : bool := alnum c || (nat_of_ascii c =? 45).
Definition dot (c : ascii) : bool := nat_of_ascii c =? 46.

Definition Opt (r : regex) : regex := Alt r Eps.
Definition Plus (r : regex) : regex := Seq r (Star r).

(** [^[a-zA-Z0-9]([a-zA-Z0-9-]*[a-zA-Z0-9])?(\.[a-zA-Z]{2,})+$] *)
Definition domainRegex : regex :=
  Seq (Class alnum)
    (Seq (Opt (Seq (Star (Class alnum_hyphen)) (Class alnum)))
       (Plus (Seq (Class dot)
                (Seq (Class alpha) (Seq (Class alpha) (Star (Class alpha))))))).

(** How the process ends: [os.Exit], the return of [main] being [Exit 0],
    or a panic that nothing recovers. *)
Inductive exit :=
| Exit (code : Z)
| Crash (msg : string).

Definition usage : string :=
  "Usage: domainr [flags] <domain> [domain...]" ++ LF ++ LF ++
  "Check domain name availability via Namecheap." ++ LF ++ LF ++ "Flags:" ++ LF.

Section Main.
Context `{GoStrings}.

(** [main] from line 31 on: [args] is [flag.Args()] and [visible] the flag,
    once [flag.Parse] has returned.  What [flag.Parse] itself may do is in
    [mainWithFlags]. *)
Definition main (pw : Playwright) (args : list string) (visible : bool) (w : World)
    : exit * World :=
  let domains := args in
  if length domains =? 0 then
    (Exit 1, emit EPrintDefaults (emit (EStderr usage []) w))
  else
    match List.find (fun d => negb (MatchString domainRegex d)) domains with
    | Some d => (Exit 1, emit (EStderr ("Invalid domain: %s" ++ LF) [FVal (VStr d)]) w)
    | None =>
        match CheckDomains pw domains (negb visible) w with
        | (Panicked msg, w) => (Crash msg, w)
        | (Returned (Err err), w) =>
            (Exit 1, emit (EStderr ("Error: %v" ++ LF) [FErr err]) w)
        | (Returned (Ok results), w) => (Exit 0, emit (EPrintResults results) w)
        end
    end.

End Main.

(** The heading element the name is read from: the first match of the
    nested path, or else the first [h2] of the element. *)
Definition heading (article : Article) : option Element :=
  match Locator article ".domain-name .name h2" with
  | el :: _ => Some el
  | [] =>
      match Locator article "h2" with
      | el :: _ => Some el
      | [] => None
      end
  end.

(** ** The stabilization, as the page has it *)

(** The poll number [j] of a page load (counted from 0) reports a count
    that is not zero and is the count of the poll before it. *)
Definition stablePoll (loaded : PageLoad) (j : nat) : bool :=
  match j with
  | 0 => false
  | S i => (0 <? poll_count loaded j) && (poll_count loaded j =? poll_count loaded i)
  end.

(** What [m] iterations of the polling loop do. *)
Definition pollEvents (m : nat) : list Event :=
  mjoin (replicate m [ESleep (400 * Millisecond); ECount]).

(** ** The retries, as the caller sees them *)

(** The world after the events [evs]. *)
Definition after (evs : list Event) (w : World) : World :=
  mkWorld (navs w) (trace w ++ evs).

(** What comes before a retry: the notice on standard error, then the
    sleep of [seconds] seconds; [attemptNo] is the attempt that follows. *)
Definition retryEvents (query : string) (seconds attemptNo : Z) : list Event :=
  [EStderr ("Retrying %s in %v (attempt %d/%d)..." ++ LF)
     [FVal (VStr query); FVal (VDuration (seconds * Second));
      FVal (VInt attemptNo); FVal (VInt 3)];
   ESleep (seconds * Second)].

(** ** The accumulator, as the orchestrator sees it *)

(** The result [article] brings for the key [k]: it parses without error,
    its lower-cased domain is [k], and [k] is wanted. *)
Definition matchFor `{GoStrings} (wanted : gmap string bool) (k : string)
    (article : Article) : option DomainResult :=
  let '(r, err) := parseArticle article in
  match err with
  | Some _ => None
  | None =>
      if wanted_at wanted k && bool_decide (ToLower (Domain r) = k) then Some r else None
  end.

(** What holds of every entry the scraper writes: the key is wanted, it is
    the lower-cased domain of the result, and the result was parsed from an
    element of a page. *)
Definition scraped `{GoStrings} (wanted : gmap string bool) (k : string)
    (r : DomainResult) : Prop :=
  wanted_at wanted k = true /\ ToLower (Domain r) = k /\
  exists article, parseArticle article = (r, None).

(** The entry of the output for the input [d]. *)
Definition resultFor `{GoStrings} (found : gmap string DomainResult) (d : string)
    : DomainResult :=
  match found !! ToLower d with
  | Some r => r
  | None => mkDomainResult d StatusUnknown ""
  end.

(** The warning of a follow-up search that failed. *)
Definition warning (d : string) (err : error) : Event :=
  EStderr ("Warning: failed to check %s: %v" ++ LF) [FVal (VStr d); FErr err].

(** ** The class list, as the page has it *)

(** The tokens of a class attribute: its maximal runs of bytes that are not
    white space. *)
Fixpoint tokensFrom (s cur : string) : list string :=
  match s with
  | EmptyString => if bool_decide (cur = "") then [] else [cur]
  | String c s' =>
      if is_space c then
        if bool_decide (cur = "") then tokensFrom s' "" else cur :: tokensFrom s' ""
      else tokensFrom s' (cur ++ String c "")
  end.

Definition classTokens (classes : string) : list string := tokensFrom classes "".

(** The class list, read without regard to case, has [token] as one of its
    tokens. *)
Definition hasToken `{GoStrings} (token classes : string) : bool :=
  bool_decide (token ∈ classTokens (ToLower classes)).

(** ** Pages for the examples *)

(** A result element with one heading (on both paths), a class attribute
    and, with [price], a price element. *)
Definition resultArticle (name classes : string) (price : option string) : Article :=
  {| Locator := fun selector =>
       if bool_decide (selector = ".domain-name .name h2") then [mkElement (Ok name)]
       else if bool_decide (selector = "h2") then [mkElement (Ok name)]
       else if bool_decide (selector = ".price strong") then
         match price with
         | Some p => [mkElement (Ok p)]
         | None => []
         end
       else [];
     GetAttribute := fun attribute =>
       if bool_decide (attribute = "class") then Ok classes
       else Err (External "attribute not read") |}.


(** A page load that shows [articles] from the first poll on, and one on
    which the result elements never come. *)
Definition okLoad (articles : list Article) : PageLoad :=
  mkPageLoad None None "Domain Name Search" (fun _ => length articles) (Ok articles).

Definition timeoutLoad (title : string) : PageLoad :=
  mkPageLoad None (Some (External "Timeout 30000ms exceeded")) title (fun _ => 0) (Ok []).

Definition w0 : World := mkWorld 0 [].

(** A driver whose set-up succeeds. *)
Definition pwOf (page : Page) : Playwright := mkPlaywright None (fun _ => None) None page.

(** The site answers every search with the one result "example.com". *)
Definition examplePage : Page := fun _ _ =>
  okLoad [resultArticle "example.com" "domain-com available" (Some "$10.98/yr")].

(** The search for "a.com" also brings "a.io". *)
Definition siblingsPage : Page := fun _ _ =>
  okLoad [resultArticle "a.com" "domain-com unavailable" None;
          resultArticle "a.io" "domain-io available" (Some "$29.98/yr")].

(** Every navigation ends on the challenge page. *)
Definition challengePage : Page := fun _ _ => timeoutLoad "Just a moment...".

(** The first navigation brings "a.com", the second never shows results,
    the third brings "b.io" and its sibling "b.com". *)
Definition fanoutPage : Page := fun n _ =>
  match n with
  | 0 => okLoad [resultArticle "a.com" "domain-com unavailable" None]
  | 1 => timeoutLoad "Namecheap"
  | _ => okLoad [resultArticle "b.io" "domain-io available" (Some "$29.98/yr");
                 resultArticle "b.com" "domain-com unavailable" None]
  end.

(** The same domain in two elements of one page. *)
Definition takenArticle : Article := resultArticle "a.com" "domain-com unavailable" None.
Definition availableArticle : Article :=
  resultArticle "a.com" "domain-com available" (Some "$9.98/yr").

(** A card that is not a domain: its heading is blank. *)
Definition promoArticle : Article := resultArticle "   " "domain-ssl product" None.

Definition rateLimited (d : string) : error :=
  Errorf "waiting for results for %s (possibly rate limited): %w" [VStr d]
    (Some (External "Timeout 30000ms exceeded")).

(** ** The language of a regular expression *)

(** The strings a regular expression denotes. *)
Inductive matches : regex -> string -> Prop :=
| matches_Eps : matches Eps ""
| matches_Class p c : p c = true -> matches (Class p) (String c "")
| matches_Seq r1 r2 s1 s2 :
    matches r1 s1 -> matches r2 s2 -> matches (Seq r1 r2) (s1 ++ s2)
| matches_Alt_l r1 r2 s : matches r1 s -> matches (Alt r1 r2) s
| matches_Alt_r r1 r2 s : matches r2 s -> matches (Alt r1 r2) s
| matches_Star_nil r : matches (Star r) ""
| matches_Star_app r s1 s2 :
    matches r s1 -> matches (Star r) s2 -> matches (Star r) (s1 ++ s2).

Fixpoint allChars (p : ascii -> bool) (s : string) : bool :=
  match s with
  | EmptyString => true
  | String c s' => p c && allChars p s'
  end.

(** The last byte of [s], if there is one, satisfies [p]. *)
Fixpoint lastChar (p : ascii -> bool) (s : string) : bool :=
  match s with
  | EmptyString => true
  | String c EmptyString => p c
  | String _ s' => lastChar p s'
  end.

(** The part of a domain before its first dot: letters, digits and
    hyphens, with no hyphen at either end. *)
Definition firstLabel (label : string) : bool :=
  match label with
  | EmptyString => false
  | String c rest => alnum c && allChars alnum_hyphen rest && lastChar alnum rest
  end.

(** A part after a dot: two letters or more, and letters only. *)
Definition dottedLabel (t : string) : bool :=
  (2 <=? String.length t) && allChars alpha t.

Fixpoint joinDotted (labels : list string) : string :=
  match labels with
  | [] => ""
  | t :: labels' => "." ++ t ++ joinDotted labels'
  end.

(** [(\.[a-zA-Z]{2,})] *)
Definition dottedRegex : regex :=
  Seq (Class dot) (Seq (Class alpha) (Seq (Class alpha) (Star (Class alpha)))).

(** ** What a trace tells *)

(** The time spent in [time.Sleep], in nanoseconds. *)
Definition sleepOf (e : Event) : Z :=
  match e with
  | ESleep d => d
  | _ => 0%Z
  end.

Definition slept (evs : list Event) : Z :=
  foldr (fun e total => (sleepOf e + total)%Z) 0%Z evs.

(** The URLs navigated to, in order. *)
Definition urlOf (e : Event) : option string :=
  match e with
  | EGoto url => Some url
  | _ => None
  end.

Definition navigated (evs : list Event) : list string := omap urlOf evs.

(** What the searches for [domains] may do: navigate to the search URL of
    one of them, wait 30 s for the results, read the title, count, list,
    sleep one of the four fixed times, write a retry notice or a warning. *)
Definition engineEvent (domains : list string) (e : Event) : Prop :=
  match e with
  | EGoto url => url ∈ searchURL <$> domains
  | EWaitFor timeout => timeout = 30000%Z
  | ETitle | ECount | EAll => True
  | ESleep d =>
      d ∈ [(400 * Millisecond)%Z; (1500 * Millisecond)%Z; (3 * Second)%Z; (6 * Second)%Z]
  | EStderr format _ =>
      format ∈ ["Retrying %s in %v (attempt %d/%d)..." ++ LF;
                "Warning: failed to check %s: %v" ++ LF]
  | EPrintDefaults | EPrintResults _ | EBrowserClose | EPwStop => False
  end.

(** From [w] to [w'] the events [evs] happened, all of them in [P], and the
    count of navigations went up by the navigations among them. *)
Definition steps (P : Event -> Prop) (w w' : World) : Prop :=
  exists evs : list Event, trace w' = (trace w ++ evs)%list /\ Forall P evs /\
    navs w' = navs w + length (navigated evs).

(** ** The pages a run has listed *)

(** The elements a search scrapes from a page load: those of the listing
    when the navigation, the wait and the listing all succeed, and none
    otherwise. *)
Definition scrapedAt (loaded : PageLoad) : list Article :=
  match goto_err loaded, waitfor_err loaded, all_articles loaded with
  | None, None, Ok articles => articles
  | _, _, _ => []
  end.

(** The elements scraped over the navigations to [urls], the first of them
    being navigation number [n] of the page, in the order of the scraping. *)
Fixpoint visited (page : Page) (n : nat) (urls : list string) : list Article :=
  match urls with
  | [] => []
  | url :: urls' => (scrapedAt (page n url) ++ visited page (S n) urls')%list
  end.

(** From [found] in [w] to [found'] in [w']: events happened, and the
    accumulator took in, element by element and in order, what the
    navigations among them scraped. *)
Definition accumulates `{GoStrings} (page : Page) (wanted : gmap string bool)
    (found : gmap string DomainResult) (w : World)
    (found' : gmap string DomainResult) (w' : World) : Prop :=
  exists evs : list Event,
    trace w' = (trace w ++ evs)%list /\
    navs w' = navs w + length (navigated evs) /\
    found' = foldl (scrapeArticle wanted) found (visited page (navs w) (navigated evs)).

(** ** main, from the command line *)



(** ** printResults: the alignment of the names *)

(** [len(s)] *)
Definition len (s : string) : Z := Z.of_nat (String.length s).

(** The loop that finds the longest domain name. *)
Definition maxLen (results : list DomainResult) : Z :=
  foldl (fun maxLen r => if (maxLen <? len (Domain r))%Z then len (Domain r) else maxLen)
    0%Z results.

Fixpoint repeatString (s : string) (count : nat) : string :=
  match count with
  | 0 => ""
  | S count' => s ++ repeatString s count'
  end.

(** [strings.Repeat] panics on a negative count. *)
Definition Repeat (s : string) (count : Z) : outcome string :=
  if (count <? 0)%Z then Panicked "strings: negative Repeat count"
  else Returned (repeatString s (Z.to_nat count)).

(** [padded := r.Domain + strings.Repeat(" ", maxLen-len(r.Domain))] *)
Definition padded (maxLen : Z) (r : DomainResult) : outcome string :=
  match Repeat " " (maxLen - len (Domain r)) with
  | Returned pad => Returned (Domain r ++ pad)
  | Panicked msg => Panicked msg
  end.

(** * Properties *)

(** ** Substrings *)

Lemma HasPrefix_spec (s p : string) :
  HasPrefix s p = true <-> exists post, s = p ++ post.
Proof.
  revert s. induction p as [|c p IH]; intros s; simpl.
  - split; [intros _; exists s; reflexivity | intros _; destruct s; reflexivity].
  - destruct s as [|c' s]; simpl.
    + split; [discriminate | intros [post Hpost]; discriminate].
    + rewrite andb_true_iff, IH. split.
      * intros [Hc [post ->]]. apply Ascii.eqb_eq in Hc as ->. eauto.
      * intros [post Hpost]. injection Hpost as -> ->.
        split; [apply Ascii.eqb_refl | eauto].
Qed.

Lemma Contains_eq (s sub : string) :
  Contains s sub =
  HasPrefix s sub || match s with EmptyString => false | String _ s' => Contains s' sub end.
Proof. destruct s; reflexivity. Qed.

Lemma Contains_spec (s sub : string) :
  Contains s sub = true <-> exists pre post, s = pre ++ sub ++ post.
Proof.
  split.
  - induction s as [|c s IH]; rewrite Contains_eq, orb_true_iff.
    + intros [Hp | ?]; [|discriminate].
      apply HasPrefix_spec in Hp as [post ->]. exists "", post. reflexivity.
    + intros [Hp | Hc].
      * apply HasPrefix_spec in Hp as [post ->]. exists "", post. reflexivity.
      * destruct (IH Hc) as (pre & post & ->). exists (String c pre), post. reflexivity.
  - intros (pre & post & ->). induction pre as [|c pre IH].
    + rewrite Contains_eq, orb_true_iff. left.
      apply HasPrefix_spec. exists post. reflexivity.
    + rewrite Contains_eq.
      change (String c pre ++ sub ++ post) with (String c (pre ++ sub ++ post)).
      cbv beta iota. rewrite IH. apply orb_true_r.
Qed.

(** ** The parser *)

Section ParserProperties.
Context `{GoStrings}.

Lemma nameLocator_heading (article : Article) :
  match nameLocator article with
  | None => heading article = None
  | Some nl => exists el, heading article = Some el /\ First_TextContent nl = TextContent el
  end.
Proof.
  unfold nameLocator, heading.
  destruct (Locator article ".domain-name .name h2") as [|el l]; simpl.
  - destruct (Locator article "h2") as [|el' l']; simpl; eauto.
  - eauto.
Qed.

Lemma articleStatus_fields (article : Article) (r : DomainResult) :
  Domain (articleStatus article r) = Domain r /\ Price (articleStatus article r) = Price r.
Proof.
  unfold articleStatus. destruct (GetAttribute article "class"); [|done].
  repeat case_match; done.
Qed.

Lemma articlePrice_fields (article : Article) (r : DomainResult) :
  Domain (articlePrice article r) = Domain r /\ Status (articlePrice article r) = Status r.
Proof. unfold articlePrice. repeat case_match; done. Qed.

(** A result that was parsed without error has the trimmed text of the
    heading as its domain, and that text is not empty. *)
Lemma parseArticle_ok (article : Article) (r : DomainResult) :
  parseArticle article = (r, None) ->
  exists el name, heading article = Some el /\ TextContent el = Ok name /\
    Domain r = TrimSpace name /\ Domain r <> "" /\
    r = articlePrice article (articleStatus article (mkDomainResult (TrimSpace name) StatusUnknown "")).
Proof.
  unfold parseArticle. pose proof (nameLocator_heading article) as Hh.
  destruct (nameLocator article) as [nl|]; [|discriminate].
  destruct Hh as (el & Hel & Htxt). rewrite Htxt.
  destruct (TextContent el) as [name|e] eqn:Hname; [|discriminate].
  simpl. case_bool_decide as Hempty; [discriminate|].
  intros [= <-]. exists el, name. repeat split; try done.
  - destruct (articlePrice_fields article
      (articleStatus article (set_Domain zeroDomainResult (TrimSpace name)))) as [-> _].
    by destruct (articleStatus_fields article
      (set_Domain zeroDomainResult (TrimSpace name))) as [-> _].
  - destruct (articlePrice_fields article
      (articleStatus article (set_Domain zeroDomainResult (TrimSpace name)))) as [-> _].
    by destruct (articleStatus_fields article
      (set_Domain zeroDomainResult (TrimSpace name))) as [-> _].
Qed.

(** A parse that fails leaves the accumulator as it was. *)
Lemma scrapeArticle_parse_error (wanted : gmap string bool)
    (found : gmap string DomainResult) (article : Article) (r : DomainResult) (e : error) :
  parseArticle article = (r, Some e) -> scrapeArticle wanted found article = found.
Proof. unfold scrapeArticle. by intros ->. Qed.

(** C7. [parseArticle] fails with "no domain name found" exactly when
    neither the nested heading path nor the fallback [h2] matches an
    element, and with "empty domain name" exactly when the text of the
    heading was read and is empty once trimmed; in both cases the page
    scraper adds nothing to the accumulator. *)
Theorem parseArticle_name_errors (article : Article) :
  ((parseArticle article).2 = Some (Errorf "no domain name found" [] None) <->
     Locator article ".domain-name .name h2" = [] /\ Locator article "h2" = []) /\
  ((parseArticle article).2 = Some (Errorf "empty domain name" [] None) <->
     exists el name, heading article = Some el /\ TextContent el = Ok name /\
       TrimSpace name = "") /\
  (forall (wanted : gmap string bool) (found : gmap string DomainResult),
     (parseArticle article).2 = Some (Errorf "no domain name found" [] None) \/
     (parseArticle article).2 = Some (Errorf "empty domain name" [] None) ->
     scrapeArticle wanted found article = found).
Proof.
  split_and!.
  - unfold parseArticle, nameLocator.
    destruct (Locator article ".domain-name .name h2") as [|el l] eqn:E1; simpl.
    + destruct (Locator article "h2") as [|el' l'] eqn:E2; simpl.
      * split; done.
      * split; [|intros [_ ?]; done].
        destruct (TextContent el'); simpl; [case_bool_decide|]; done.
    + split; [|intros [? _]; done].
      destruct (TextContent el); simpl; [case_bool_decide|]; done.
  - unfold parseArticle. pose proof (nameLocator_heading article) as Hh.
    destruct (nameLocator article) as [nl|].
    + destruct Hh as (el & Hel & ->).
      destruct (TextContent el) as [name|e] eqn:Hname; simpl.
      * case_bool_decide as Hempty; simpl in Hempty; simpl.
        -- split; [intros _; eauto|done].
        -- split; [done|]. intros (el' & name' & Hel' & Hn' & Htrim).
           rewrite Hel in Hel'. injection Hel' as <-. congruence.
      * split; [done|]. intros (el' & name' & Hel' & Hn' & _).
        rewrite Hel in Hel'. injection Hel' as <-. congruence.
    + simpl. split; [done|]. intros (el & name & Hel & _). congruence.
  - intros wanted found Herr. destruct (parseArticle article) as [r e] eqn:E.
    simpl in Herr.
    destruct Herr as [-> | ->]; eapply scrapeArticle_parse_error; exact E.
Qed.

(** C5 (amended). The status of a parsed result is read from the class
    attribute alone, lower-cased: it is Available exactly when the attribute
    was read and contains [" available"] (the word after a space) as a
    substring, Taken exactly when it contains [" unavailable"] and not
    [" available"], and Unknown otherwise, also when the attribute cannot be
    read. *)
Theorem parseArticle_status (article : Article) (r : DomainResult) :
  parseArticle article = (r, None) ->
  (Status r = StatusAvailable <->
     exists classes pre post, GetAttribute article "class" = Ok classes /\
       ToLower classes = pre ++ " available" ++ post) /\
  (Status r = StatusTaken <->
     exists classes, GetAttribute article "class" = Ok classes /\
       (exists pre post, ToLower classes = pre ++ " unavailable" ++ post) /\
       ~ (exists pre post, ToLower classes = pre ++ " available" ++ post)) /\
  (Status r = StatusUnknown <->
     forall classes, GetAttribute article "class" = Ok classes ->
       Contains (ToLower classes) " available" = false /\
       Contains (ToLower classes) " unavailable" = false).
Proof.
  intros Hok. apply parseArticle_ok in Hok as (el & name & _ & _ & _ & _ & ->).
  destruct (articlePrice_fields article
    (articleStatus article (mkDomainResult (TrimSpace name) StatusUnknown ""))) as [_ ->].
  unfold articleStatus.
  destruct (GetAttribute article "class") as [classes|e]; simpl.
  - destruct (Contains (ToLower classes) " available") eqn:Ha; simpl.
    + apply Contains_spec in Ha as Ha'. destruct Ha' as (pre & post & Hpre).
      split_and!.
      * split; [intros _; eauto|done].
      * split; [done|]. intros (c' & [= <-] & _ & Hno). destruct Hno. eauto.
      * split; [done|]. intros Hall. destruct (Hall classes eq_refl). congruence.
    + assert (~ exists pre post, ToLower classes = pre ++ " available" ++ post) as Hno.
      { intros Hex. apply Contains_spec in Hex. congruence. }
      destruct (Contains (ToLower classes) " unavailable") eqn:Hu; simpl.
      * apply Contains_spec in Hu as Hu'. split_and!.
        -- split; [done|]. intros (c' & pre & post & [= <-] & Hpre). destruct Hno. eauto.
        -- split; [intros _; eauto|done].
        -- split; [done|]. intros Hall. destruct (Hall classes eq_refl). congruence.
      * split_and!.
        -- split; [done|]. intros (c' & pre & post & [= <-] & Hpre). destruct Hno. eauto.
        -- split; [done|]. intros (c' & [= <-] & Hex & _).
           apply Contains_spec in Hex. congruence.
        -- split; [|done]. intros _ c' [= <-]. done.
  - split_and!.
    + split; [done|]. intros (c' & pre & post & ? & _). done.
    + split; [done|]. intros (c' & ? & _). done.
    + split; [|done]. intros _ c' ?. done.
Qed.

End ParserProperties.

(** ** One search *)

Section SearchProperties.
Context `{GoStrings}.

Lemma pollLoop_spec (loaded : PageLoad) (n k prevCount : nat) (w : World) :
  prevCount = match k with 0 => 0 | S i => poll_count loaded i end ->
  exists m, m <= n /\ (0 < n -> 0 < m) /\
    pollLoop n k prevCount loaded w = mkWorld (navs w) (trace w ++ pollEvents m) /\
    (forall j, j + 1 < m -> stablePoll loaded (k + j) = false) /\
    (m < n -> stablePoll loaded (k + m - 1) = true).
Proof.
  revert k prevCount w. induction n as [|n IH]; intros k prevCount w Hprev.
  - exists 0. split_and!; try lia.
    simpl. unfold pollEvents. simpl. rewrite app_nil_r. by destruct w.
  - assert (((0 <? poll_count loaded k) && (poll_count loaded k =? prevCount))
            = stablePoll loaded k) as Hbreak.
    { subst prevCount. destruct k as [|i]; simpl; [|done].
      destruct (poll_count loaded 0); simpl; done. }
    cbn [pollLoop]. rewrite Hbreak.
    destruct (stablePoll loaded k) eqn:Hstable.
    + exists 1. split_and!; try lia.
      * unfold Sleep, emit, pollEvents. simpl. by rewrite <- app_assoc.
      * intros _. replace (k + 1 - 1) with k by lia. done.
    + destruct (IH (S k) (poll_count loaded k)
                  (emit ECount (Sleep (400 * Millisecond) w)) eq_refl)
        as (m & Hle & Hpos & -> & Hbefore & Hearly).
      exists (S m). split_and!; try lia.
      * unfold Sleep, emit, pollEvents. simpl. by rewrite <- !app_assoc.
      * intros [|j] Hj.
        -- by rewrite Nat.add_0_r.
        -- replace (k + S j) with (S k + j) by lia. apply Hbefore. lia.
      * intros Hlt. assert (0 < m) by lia.
        replace (k + S m - 1) with (S k + m - 1) by lia. apply Hearly. lia.
Qed.

(** C4. The polling loop of the stabilization makes at least one and at
    most five polls, each after a sleep of 400 ms, and then ends; no poll
    before the last one it makes was stable, and when it makes fewer than
    five the last one was: the count was not zero and equal to the count of
    the poll before. *)
Theorem stabilize_polls (loaded : PageLoad) (w : World) :
  exists m, 1 <= m <= 5 /\
    stabilize loaded w = mkWorld (navs w) (trace w ++ pollEvents m) /\
    (forall j, j + 1 < m -> stablePoll loaded j = false) /\
    (m < 5 -> stablePoll loaded (m - 1) = true) /\
    (forall j, j < 4 -> stablePoll loaded j = true -> m <= j + 1).
Proof.
  destruct (pollLoop_spec loaded 5 0 0 w eq_refl) as (m & Hle & Hpos & Heq & Hbefore & Hearly).
  simpl in Hbefore.
  exists m. split_and!.
  - lia.
  - lia.
  - exact Heq.
  - exact Hbefore.
  - intros Hlt. specialize (Hearly Hlt). by rewrite Nat.add_0_l in Hearly.
  - intros j Hj Hstable. destruct (decide (m <= j + 1)) as [|Hgt]; [done|].
    rewrite Hbefore in Hstable; [done | lia].
Qed.

Lemma stabilize_navs (loaded : PageLoad) (w : World) :
  navs (stabilize loaded w) = navs w.
Proof.
  unfold stabilize.
  destruct (pollLoop_spec loaded 5 0 0 w eq_refl) as (m & _ & _ & -> & _). done.
Qed.

(** A search that fails has not touched the accumulator. *)
Lemma scrapeResults_error loaded wanted (found found' : gmap string DomainResult) w w' e :
  scrapeResults loaded wanted found w = (Some e, found', w') -> found' = found.
Proof. unfold scrapeResults. destruct (all_articles loaded); by intros [= <- <- <-]. Qed.

Lemma searchAndScrape_error page query wanted
    (found found' : gmap string DomainResult) w w' e :
  searchAndScrape page query wanted found w = (Some e, found', w') -> found' = found.
Proof.
  unfold searchAndScrape.
  destruct (goto_err _); [by intros [= <- <- <-]|].
  destruct (waitfor_err _).
  - destruct (Contains _ _); by intros [= <- <- <-].
  - apply scrapeResults_error.
Qed.

Lemma searchAndScrape_navs page query wanted (found : gmap string DomainResult) w :
  navs (searchAndScrape page query wanted found w).2 = S (navs w).
Proof.
  unfold searchAndScrape.
  destruct (goto_err _); [done|].
  destruct (waitfor_err _).
  - destruct (Contains _ _); done.
  - unfold scrapeResults. destruct (all_articles _); simpl; by rewrite stabilize_navs.
Qed.

(** C6. When the wait for the first result element fails, with an error of
    the driver that is not the program's own sentinel, the search fails
    without touching the accumulator, and its error is the Blocked one
    (it wraps [errCloudflareBlocked]) exactly when the lower-cased title
    contains "just a moment"; otherwise it is the "possibly rate limited"
    error around the driver's error, which is not Blocked. *)
Theorem searchAndScrape_wait_failure page query wanted
    (found : gmap string DomainResult) (w : World) (err : error) :
  let loaded := page (navs w) (searchURL query) in
  goto_err loaded = None ->
  waitfor_err loaded = Some err ->
  errors_Is err errCloudflareBlocked = false ->
  exists e w',
    searchAndScrape page query wanted found w = (Some e, found, w') /\
    e = (if Contains (ToLower (page_title loaded)) "just a moment"
         then Errorf "%w: page stuck on challenge for %s" [VStr query]
                (Some errCloudflareBlocked)
         else Errorf "waiting for results for %s (possibly rate limited): %w"
                [VStr query] (Some err)) /\
    (errors_Is e errCloudflareBlocked = true <->
       exists pre post, ToLower (page_title loaded) = pre ++ "just a moment" ++ post).
Proof.
  intros loaded Hgoto Hwait Hdriver. unfold searchAndScrape.
  fold loaded. rewrite Hgoto, Hwait.
  destruct (Contains (ToLower (page_title loaded)) "just a moment") eqn:Htitle;
    eexists _, _; (split_and!; [reflexivity | reflexivity |]).
  - split; [intros _; by apply Contains_spec | done].
  - split.
    + cbn [errors_Is error_eqb]. rewrite Hdriver. done.
    + intros Hex. apply Contains_spec in Hex. congruence.
Qed.

Lemma backoff_navs query attempt w : navs (backoff query attempt w) = navs w.
Proof. unfold backoff. destruct (0 <? attempt); done. Qed.

Lemma retryLoop_navs page query wanted attempts lastErr
    (found : gmap string DomainResult) w :
  navs w <= navs (retryLoop page query wanted attempts lastErr found w).2 <=
  navs w + length attempts.
Proof.
  revert lastErr found w. induction attempts as [|attempt attempts IH];
    intros lastErr found w; cbn [retryLoop length].
  - simpl. lia.
  - pose proof (searchAndScrape_navs page query wanted found (backoff query attempt w)) as Hn.
    rewrite backoff_navs in Hn.
    destruct (searchAndScrape page query wanted found (backoff query attempt w))
      as [[e1 f1] w1]. simpl in Hn.
    destruct e1 as [err1|]; [|simpl; lia].
    destruct (negb (errors_Is err1 errCloudflareBlocked)); [simpl; lia|].
    specialize (IH (Some err1) f1 w1). lia.
Qed.

(** Only a search that succeeds changes the accumulator. *)
Lemma retryLoop_error page query wanted attempts lastErr
    (found found' : gmap string DomainResult) w w' r :
  retryLoop page query wanted attempts lastErr found w = (r, found', w') ->
  r <> inl None -> found' = found.
Proof.
  revert lastErr found w. induction attempts as [|attempt attempts IH];
    intros lastErr found w; cbn [retryLoop].
  - by intros [= <- <- <-].
  - destruct (searchAndScrape page query wanted found (backoff query attempt w))
      as [[e1 f1] w1] eqn:E1.
    destruct e1 as [err1|]; [|intros [= <- <- <-]; done].
    apply searchAndScrape_error in E1 as ->.
    destruct (negb (errors_Is err1 errCloudflareBlocked)); [by intros [= <- <- <-]|].
    apply IH.
Qed.

Lemma searchWithRetry_error page query wanted
    (found found' : gmap string DomainResult) w w' e :
  searchWithRetry page query wanted found w = (Some e, found', w') -> found' = found.
Proof.
  unfold searchWithRetry.
  destruct (retryLoop page query wanted (seq 0 maxRetries) None found w)
    as [[r f] w1] eqn:E.
  destruct r as [r|lastErr]; intros [= ? <- <-]; subst.
  - eapply retryLoop_error; [exact E | done].
  - eapply retryLoop_error; [exact E | done].
Qed.

Lemma backoff_first query w : backoff query 0 w = w.
Proof. reflexivity. Qed.

Lemma backoff_second query w : backoff query 1 w = after (retryEvents query 3 2) w.
Proof. unfold backoff, after, retryEvents, Sleep, emit. simpl. by rewrite <- app_assoc. Qed.

Lemma backoff_third query w : backoff query 2 w = after (retryEvents query 6 3) w.
Proof. unfold backoff, after, retryEvents, Sleep, emit. simpl. by rewrite <- app_assoc. Qed.

(** C3. [searchWithRetry] makes a first attempt at once.  An attempt that
    succeeds, or fails with an error that is not Blocked, ends the call
    with that outcome.  After a Blocked first attempt it writes the notice
    and sleeps 3 s before attempt 2, after a Blocked second attempt it
    writes the notice and sleeps 6 s before attempt 3, and after a Blocked
    third attempt it returns "giving up after 3 attempts" around the last
    error.  It navigates at least once and at most three times. *)
Theorem searchWithRetry_policy page query wanted
    (found : gmap string DomainResult) (w : World) :
  let blocked e := errors_Is e errCloudflareBlocked in
  let call := searchWithRetry page query wanted found w in
  (let '(e1, f1, w1) := searchAndScrape page query wanted found w in
   match e1 with
   | None => call = (None, f1, w1)
   | Some err1 =>
     if blocked err1 then
       let '(e2, f2, w2) :=
         searchAndScrape page query wanted f1 (after (retryEvents query 3 2) w1) in
       match e2 with
       | None => call = (None, f2, w2)
       | Some err2 =>
         if blocked err2 then
           let '(e3, f3, w3) :=
             searchAndScrape page query wanted f2 (after (retryEvents query 6 3) w2) in
           match e3 with
           | None => call = (None, f3, w3)
           | Some err3 =>
             if blocked err3 then
               call = (Some (Errorf "giving up after %d attempts: %w" [VInt 3] (Some err3)),
                       f3, w3)
             else call = (Some err3, f3, w3)
           end
         else call = (Some err2, f2, w2)
       end
     else call = (Some err1, f1, w1)
   end) /\
  navs w + 1 <= navs call.2 <= navs w + 3.
Proof.
  intros blocked call. split.
  - subst call blocked. unfold searchWithRetry. cbn [seq maxRetries retryLoop].
    rewrite backoff_first.
    destruct (searchAndScrape page query wanted found w) as [[e1 f1] w1].
    destruct e1 as [err1|]; [|done].
    destruct (errors_Is err1 errCloudflareBlocked); [|done]. cbn [negb].
    rewrite backoff_second.
    destruct (searchAndScrape page query wanted f1 _) as [[e2 f2] w2].
    destruct e2 as [err2|]; [|done].
    destruct (errors_Is err2 errCloudflareBlocked); [|done]. cbn [negb].
    rewrite backoff_third.
    destruct (searchAndScrape page query wanted f2 _) as [[e3 f3] w3].
    destruct e3 as [err3|]; [|done].
    destruct (errors_Is err3 errCloudflareBlocked); done.
  - subst call. unfold searchWithRetry.
    pose proof (retryLoop_navs page query wanted (seq 0 maxRetries) None found w) as Hup.
    assert (navs w + 1 <=
            navs (retryLoop page query wanted (seq 0 maxRetries) None found w).2) as Hlow.
    { cbn [seq maxRetries retryLoop]. rewrite backoff_first.
      pose proof (searchAndScrape_navs page query wanted found w) as H1.
      destruct (searchAndScrape page query wanted found w) as [[e1 f1] w1]. simpl in H1.
      destruct e1 as [err1|]; [|simpl; lia].
      destruct (negb (errors_Is err1 errCloudflareBlocked)); [simpl; lia|].
      pose proof (retryLoop_navs page query wanted [1; 2] (Some err1) f1 w1) as H2.
      simpl in H2. lia. }
    destruct (retryLoop page query wanted (seq 0 maxRetries) None found w) as [[r f] w1].
    simpl in *. destruct r; simpl; lia.
Qed.

End SearchProperties.

(** ** The page scraper *)

Section ScraperProperties.
Context `{GoStrings}.

Lemma scrapeArticle_lookup wanted (found : gmap string DomainResult) article k :
  scrapeArticle wanted found article !! k =
  match matchFor wanted k article with
  | Some r => Some r
  | None => found !! k
  end.
Proof.
  unfold scrapeArticle, matchFor.
  destruct (parseArticle article) as [r [e|]]; [done|].
  destruct (decide (ToLower (Domain r) = k)) as [<-|Hne].
  - rewrite bool_decide_eq_true_2 by done. rewrite andb_true_r.
    destruct (wanted_at wanted (ToLower (Domain r))); [|done].
    by rewrite lookup_insert_eq.
  - rewrite bool_decide_eq_false_2 by done. rewrite andb_false_r.
    destruct (wanted_at wanted (ToLower (Domain r))); [|done].
    by rewrite lookup_insert_ne.
Qed.

Lemma scrapeArticles_lookup wanted (found : gmap string DomainResult) articles k :
  foldl (scrapeArticle wanted) found articles !! k =
  match last (omap (matchFor wanted k) articles) with
  | Some r => Some r
  | None => found !! k
  end.
Proof.
  revert found. induction articles as [|a articles IH]; intros found; [done|].
  cbn [foldl]. rewrite IH, scrapeArticle_lookup.
  destruct (matchFor wanted k a) as [r|] eqn:E; cbn [omap list_omap]; rewrite E; [|done].
  rewrite last_cons. destruct (last (omap (matchFor wanted k) articles)); done.
Qed.

(** C1 (amended). The scraper writes every successfully parsed result whose
    lower-cased domain is wanted under that key, whether the key is already
    there or not: after a page has been scraped the entry of a key is the
    result of the last element of the page that matches it, and the entry
    from before only when no element matches. *)
Theorem scrapeResults_last_match_wins wanted (found : gmap string DomainResult) :
  (forall article r,
     parseArticle article = (r, None) ->
     wanted_at wanted (ToLower (Domain r)) = true ->
     scrapeArticle wanted found article = <[ToLower (Domain r) := r]> found) /\
  (forall loaded w k,
     match all_articles loaded with
     | Ok articles =>
         (scrapeResults loaded wanted found w).1.2 !! k =
         match last (omap (matchFor wanted k) articles) with
         | Some r => Some r
         | None => found !! k
         end
     | Err _ => (scrapeResults loaded wanted found w).1.2 = found
     end).
Proof.
  split.
  - intros article r Hparse Hwanted. unfold scrapeArticle. by rewrite Hparse, Hwanted.
  - intros loaded w k. unfold scrapeResults.
    destruct (all_articles loaded) as [articles|e]; [|done].
    apply scrapeArticles_lookup.
Qed.

(** *** Every entry was scraped *)

Lemma scrapeArticle_scraped wanted (found : gmap string DomainResult) article :
  map_Forall (scraped wanted) found ->
  map_Forall (scraped wanted) (scrapeArticle wanted found article).
Proof.
  intros Hinv. unfold scrapeArticle.
  destruct (parseArticle article) as [r [e|]] eqn:Hparse; [done|].
  destruct (wanted_at wanted (ToLower (Domain r))) eqn:Hwanted; [|done].
  apply map_Forall_insert_2; [|done].
  split_and!; eauto.
Qed.

Lemma scrapeArticles_scraped wanted (found : gmap string DomainResult) articles :
  map_Forall (scraped wanted) found ->
  map_Forall (scraped wanted) (foldl (scrapeArticle wanted) found articles).
Proof.
  revert found. induction articles as [|a articles IH]; intros found Hinv; [done|].
  simpl. apply IH. by apply scrapeArticle_scraped.
Qed.

Lemma scrapeResults_scraped loaded wanted (found : gmap string DomainResult) w :
  map_Forall (scraped wanted) found ->
  map_Forall (scraped wanted) (scrapeResults loaded wanted found w).1.2.
Proof.
  intros Hinv. unfold scrapeResults.
  destruct (all_articles loaded); simpl; [|done]. by apply scrapeArticles_scraped.
Qed.

Lemma searchAndScrape_scraped page query wanted (found : gmap string DomainResult) w :
  map_Forall (scraped wanted) found ->
  map_Forall (scraped wanted) (searchAndScrape page query wanted found w).1.2.
Proof.
  intros Hinv. unfold searchAndScrape.
  destruct (goto_err _); [done|].
  destruct (waitfor_err _).
  - destruct (Contains _ _); done.
  - by apply scrapeResults_scraped.
Qed.

Lemma retryLoop_scraped page query wanted attempts lastErr
    (found : gmap string DomainResult) w :
  map_Forall (scraped wanted) found ->
  map_Forall (scraped wanted) (retryLoop page query wanted attempts lastErr found w).1.2.
Proof.
  revert lastErr found w. induction attempts as [|attempt attempts IH];
    intros lastErr found w Hinv; cbn [retryLoop]; [done|].
  pose proof (searchAndScrape_scraped page query wanted found
                (backoff query attempt w) Hinv) as H1.
  destruct (searchAndScrape page query wanted found (backoff query attempt w))
    as [[e1 f1] w1]. simpl in H1.
  destruct e1 as [err1|]; [|done].
  destruct (negb (errors_Is err1 errCloudflareBlocked)); [done|].
  by apply IH.
Qed.

Lemma searchWithRetry_scraped page query wanted (found : gmap string DomainResult) w :
  map_Forall (scraped wanted) found ->
  map_Forall (scraped wanted) (searchWithRetry page query wanted found w).1.2.
Proof.
  intros Hinv. unfold searchWithRetry.
  pose proof (retryLoop_scraped page query wanted (seq 0 maxRetries) None found w Hinv) as H1.
  destruct (retryLoop page query wanted (seq 0 maxRetries) None found w) as [[r f] w1].
  destruct r; done.
Qed.

Lemma followUps_scraped page wanted domains (found : gmap string DomainResult) w :
  map_Forall (scraped wanted) found ->
  map_Forall (scraped wanted) (followUps page wanted domains found w).1.
Proof.
  revert found w. induction domains as [|d domains IH]; intros found w Hinv;
    cbn [followUps]; [done|].
  destruct (found !! ToLower d); [by apply IH|].
  pose proof (searchWithRetry_scraped page d wanted found
                (Sleep (1500 * Millisecond) w) Hinv) as H1.
  destruct (searchWithRetry page d wanted found (Sleep (1500 * Millisecond) w))
    as [[e1 f1] w1]. simpl in H1.
  by apply IH.
Qed.

Lemma checkWithPage_scraped page domains w :
  map_Forall (scraped (buildWanted domains)) (checkWithPage page domains w).1.2.
Proof.
  unfold checkWithPage.
  destruct (domains !! 0) as [d0|]; [|apply map_Forall_empty].
  pose proof (searchWithRetry_scraped page d0 (buildWanted domains) ∅ w
                (map_Forall_empty _)) as H1.
  destruct (searchWithRetry page d0 (buildWanted domains) ∅ w) as [[e1 f1] w1].
  simpl in H1. destruct e1 as [err1|]; [done|].
  pose proof (followUps_scraped page (buildWanted domains) domains f1 w1 H1) as H2.
  destruct (followUps page (buildWanted domains) domains f1 w1) as [f2 w2]. done.
Qed.

Lemma buildWanted_from (acc : gmap string bool) domains k :
  foldl (fun wanted d => <[ToLower d := true]> wanted) acc domains !! k = Some true <->
  acc !! k = Some true \/ k ∈ ToLower <$> domains.
Proof.
  revert acc. induction domains as [|d domains IH]; intros acc; simpl.
  - rewrite elem_of_nil. tauto.
  - rewrite IH, elem_of_cons. destruct (decide (ToLower d = k)) as [->|Hne].
    + rewrite lookup_insert_eq. tauto.
    + rewrite lookup_insert_ne by done. split; [tauto|].
      intros [?|[?|?]]; [tauto|congruence|tauto].
Qed.

(** The wanted keys are the lower-cased requested domains. *)
Lemma buildWanted_spec domains k :
  wanted_at (buildWanted domains) k = true <-> k ∈ ToLower <$> domains.
Proof.
  unfold wanted_at, buildWanted.
  pose proof (buildWanted_from ∅ domains k) as Hb. rewrite lookup_empty in Hb.
  split.
  - intros Hw. destruct (foldl _ _ _ !! k) as [[]|]; simpl in Hw; try done.
    destruct Hb as [Hb _]. destruct (Hb eq_refl); done.
  - intros Hk. destruct Hb as [_ Hb]. rewrite Hb; auto.
Qed.

(** C9. Every key of the accumulator is a wanted key, that is, the
    lower-casing of a requested domain: the scraper writes an entry only
    under a wanted key, so this holds after each element, after each search
    with its retries, and of the accumulator at the end of a run. *)
Theorem found_keys_wanted page domains (w : World) :
  let wanted := buildWanted domains in
  let keysWanted (found : gmap string DomainResult) :=
    forall k, is_Some (found !! k) -> k ∈ ToLower <$> domains in
  (forall found article k,
     wanted_at wanted k = false ->
     scrapeArticle wanted found article !! k = found !! k) /\
  (forall found article, keysWanted found -> keysWanted (scrapeArticle wanted found article)) /\
  (forall found query w,
     keysWanted found -> keysWanted (searchWithRetry page query wanted found w).1.2) /\
  keysWanted (checkWithPage page domains w).1.2.
Proof.
  intros wanted keysWanted.
  assert (forall found, map_Forall (scraped wanted) found -> keysWanted found) as Hkeys.
  { intros found Hinv k [r Hr]. apply buildWanted_spec. by destruct (Hinv k r Hr). }
  assert (forall found article k, wanted_at wanted k = false ->
            scrapeArticle wanted found article !! k = found !! k) as Hskip.
  { intros found article k Hnot. rewrite scrapeArticle_lookup. unfold matchFor.
    destruct (parseArticle article) as [r [e|]]; [done|]. by rewrite Hnot. }
  assert (forall found article, keysWanted found ->
            keysWanted (scrapeArticle wanted found article)) as Hstep.
  { intros found article Hinv k Hk.
    destruct (wanted_at wanted k) eqn:Hw; [by apply buildWanted_spec|].
    rewrite Hskip in Hk by done. by apply Hinv. }
  split_and!; [done | done | | apply Hkeys, checkWithPage_scraped].
  intros found query w0 Hinv k Hk.
  destruct (wanted_at wanted k) eqn:Hw; [by apply buildWanted_spec|].
  apply Hinv.
  (* an unwanted key is untouched by the whole search *)
  assert (forall articles f, foldl (scrapeArticle wanted) f articles !! k = f !! k) as Hfold.
  { induction articles as [|a articles IH]; intros f; [done|].
    simpl. by rewrite IH, Hskip. }
  assert (forall q f w1, (searchAndScrape page q wanted f w1).1.2 !! k = f !! k) as Hsearch.
  { intros q f w1. unfold searchAndScrape.
    destruct (goto_err _); [done|]. destruct (waitfor_err _).
    - destruct (Contains _ _); done.
    - unfold scrapeResults. destruct (all_articles _); simpl; [apply Hfold|done]. }
  assert (forall attempts lastErr f w1,
            (retryLoop page query wanted attempts lastErr f w1).1.2 !! k = f !! k) as Hloop.
  { induction attempts as [|attempt attempts IH]; intros lastErr f w1;
      cbn [retryLoop]; [done|].
    pose proof (Hsearch query f (backoff query attempt w1)) as H1.
    destruct (searchAndScrape page query wanted f (backoff query attempt w1))
      as [[e1 f1] w2]. simpl in H1.
    destruct e1 as [err1|]; [|done].
    destruct (negb (errors_Is err1 errCloudflareBlocked)); [done|].
    by rewrite IH. }
  unfold searchWithRetry in Hk.
  pose proof (Hloop (seq 0 maxRetries) None found w0) as H1.
  destruct (retryLoop page query wanted (seq 0 maxRetries) None found w0) as [[r f] w1].
  simpl in H1. rewrite <- H1. destruct r; exact Hk.
Qed.

End ScraperProperties.

(** ** The batch orchestrator *)

Section OrchestratorProperties.
Context `{GoStrings}.

Lemma buildResults_from domains (found : gmap string DomainResult) (acc : list DomainResult) :
  foldl (fun results d =>
           let key := ToLower d in
           match found !! key with
           | Some r => (results ++ [r])%list
           | None => (results ++ [mkDomainResult d StatusUnknown ""])%list
           end) acc domains
  = (acc ++ (resultFor found <$> domains))%list.
Proof.
  revert acc. induction domains as [|d domains IH]; intros acc; simpl.
  - by rewrite app_nil_r.
  - rewrite IH. unfold resultFor at 2.
    destruct (found !! ToLower d); by rewrite <- app_assoc.
Qed.

Lemma buildResults_map domains (found : gmap string DomainResult) :
  buildResults domains found = resultFor found <$> domains.
Proof. unfold buildResults. by rewrite buildResults_from. Qed.

(** A run that gives results gives those of the accumulator at its end. *)
Lemma CheckDomains_ok pw domains headless w results w' :
  CheckDomains pw domains headless w = (Returned (Ok results), w') ->
  exists found,
    found = (checkWithPage (the_page pw) domains w).1.2 /\
    results = resultFor found <$> domains.
Proof.
  unfold CheckDomains.
  destruct (run_err pw); [done|]. destruct (launch_err pw headless); [done|].
  destruct (newpage_err pw); [done|].
  unfold checkWithPage. destruct (domains !! 0) as [d0|]; [|done].
  destruct (searchWithRetry _ _ _ _ _) as [[e1 f1] w1].
  destruct e1 as [err1|]; [done|].
  destruct (followUps _ _ _ _ _) as [f2 w2].
  intros [= <- <-]. exists f2. split; [done|]. apply buildResults_map.
Qed.

(** C10. [CheckDomains] indexes [domains[0]] without a test of the length:
    on the empty list, once the browser is set up, the call panics with an
    index out of range (the deferred calls still run); on a list that is
    not empty it never panics.  [main] does not come to that: with no
    domain argument it writes the usage, exits with code 1 and does
    nothing else, and for no arguments at all does it end in a panic. *)
Theorem CheckDomains_needs_nonempty pw headless visible (w : World) :
  (CheckDomains pw [] headless w =
     match run_err pw, launch_err pw headless, newpage_err pw with
     | Some err, _, _ =>
         (Returned (Err (Errorf "launching playwright: %w" [] (Some err))), w)
     | None, Some err, _ =>
         (Returned (Err (Errorf "launching browser: %w" [] (Some err))), emit EPwStop w)
     | None, None, Some err =>
         (Returned (Err (Errorf "creating page: %w" [] (Some err))),
          emit EPwStop (emit EBrowserClose w))
     | None, None, None =>
         (Panicked "index out of range [0] with length 0",
          emit EPwStop (emit EBrowserClose w))
     end) /\
  (forall d domains msg, (CheckDomains pw (d :: domains) headless w).1 <> Panicked msg) /\
  main pw [] visible w = (Exit 1, emit EPrintDefaults (emit (EStderr usage []) w)) /\
  (forall args msg, (main pw args visible w).1 <> Crash msg).
Proof.
  assert (forall hl d domains msg,
            (CheckDomains pw (d :: domains) hl w).1 <> Panicked msg) as Hsafe.
  { intros hl d domains msg. unfold CheckDomains.
    destruct (run_err pw); [done|]. destruct (launch_err pw hl); [done|].
    destruct (newpage_err pw); [done|].
    unfold checkWithPage. cbn [lookup list_lookup].
    destruct (searchWithRetry _ _ _ _ _) as [[e1 f1] w1].
    destruct e1 as [err1|]; [done|].
    destruct (followUps _ _ _ _ _) as [f2 w2]. done. }
  split_and!.
  - unfold CheckDomains.
    destruct (run_err pw); [done|]. destruct (launch_err pw headless); [done|].
    destruct (newpage_err pw); done.
  - apply Hsafe.
  - done.
  - intros args msg. unfold main. destruct args as [|d args]; [done|].
    cbn [length Nat.eqb].
    destruct (List.find _ _); [done|].
    specialize (Hsafe (negb visible) d args).
    destruct (CheckDomains pw (d :: args) (negb visible) w) as [[[results|err]|msg'] w1];
      simpl in *; [done | done |].
    by destruct (Hsafe msg').
Qed.

End OrchestratorProperties.

(** ** Runs *)

(** What [main] lets through. *)
Example domainRegex_accepts :
  MatchString domainRegex "Example.COM" = true /\
  MatchString domainRegex "cool-project.co.uk" = true /\
  MatchString domainRegex "a.io" = true.
Proof. repeat split; vm_compute; reflexivity. Qed.

Example domainRegex_rejects :
  MatchString domainRegex "example" = false /\
  MatchString domainRegex "exa mple.com" = false /\
  MatchString domainRegex "example.c" = false /\
  MatchString domainRegex "-a.com" = false /\
  MatchString domainRegex "" = false.
Proof. repeat split; vm_compute; reflexivity. Qed.

(** One requested domain, found by the seed search. *)
Example run_single :
  (CheckDomains (pwOf examplePage) ["example.com"] true w0).1 =
  Returned (Ok [mkDomainResult "example.com" StatusAvailable "$10.98/yr"]).
Proof. vm_compute. reflexivity. Qed.

(** Two requested domains, both brought by the seed search: one navigation. *)
Example run_siblings :
  let '(r, w) := CheckDomains (pwOf siblingsPage) ["a.com"; "a.io"] true w0 in
  r = Returned (Ok [mkDomainResult "a.com" StatusTaken "";
                    mkDomainResult "a.io" StatusAvailable "$29.98/yr"]) /\
  navs w = 1.
Proof. vm_compute. split; reflexivity. Qed.

(** The seed search meets the challenge page three times: an error. *)
Example run_blocked :
  let '(r, w) := CheckDomains (pwOf challengePage) ["x.dev"] true w0 in
  r = Returned (Err (Errorf "searching for %s: %w" [VStr "x.dev"]
        (Some (Errorf "giving up after %d attempts: %w" [VInt 3]
           (Some (Errorf "%w: page stuck on challenge for %s" [VStr "x.dev"]
              (Some errCloudflareBlocked))))))) /\
  navs w = 3.
Proof. vm_compute. split; reflexivity. Qed.

(** ** Where the specification and the code differ *)

(** C1. A key that is in the accumulator is written again: the second
    element of the page for "a.com" replaces the entry of the first. *)
Lemma first_match_replaced :
  let wanted := buildWanted ["a.com"] in
  let first := mkDomainResult "a.com" StatusTaken "" in
  let second := mkDomainResult "a.com" StatusAvailable "$9.98/yr" in
  let found1 := scrapeArticle wanted ∅ takenArticle in
  found1 !! "a.com" = Some first /\
  parseArticle availableArticle = (second, None) /\
  ToLower (Domain second) = "a.com" /\
  scrapeArticle wanted found1 availableArticle !! "a.com" = Some second /\
  (scrapeResults (okLoad [takenArticle; availableArticle]) wanted ∅ w0).1.2 !! "a.com"
    = Some second /\
  second <> first.
Proof. vm_compute. split_and!; try reflexivity. discriminate. Qed.

(** C2. The input "Example.COM" passes the validation of [main]; the page
    shows "example.com", and that is the domain of the result. *)
Lemma output_casing_from_page :
  MatchString domainRegex "Example.COM" = true /\
  (CheckDomains (pwOf examplePage) ["Example.COM"] true w0).1 =
    Returned (Ok [mkDomainResult "example.com" StatusAvailable "$10.98/yr"]) /\
  Domain (mkDomainResult "example.com" StatusAvailable "$10.98/yr") <> "Example.COM".
Proof. vm_compute. split_and!; try reflexivity. discriminate. Qed.

(** C5. A class list that begins with the token "available" gives
    Unknown, and a class list with the token "unavailable" and without the
    token "available" gives Available. *)
Lemma status_not_by_tokens :
  (hasToken "available" "available domain-com" = true /\
   parseArticle (resultArticle "a.com" "available domain-com" None)
     = (mkDomainResult "a.com" StatusUnknown "", None)) /\
  (hasToken "unavailable" "domain-com unavailable available-soon" = true /\
   hasToken "available" "domain-com unavailable available-soon" = false /\
   parseArticle (resultArticle "a.com" "domain-com unavailable available-soon" None)
     = (mkDomainResult "a.com" StatusAvailable "", None)).
Proof. vm_compute. split_and!; reflexivity. Qed.

(** C8. The follow-up search for "b.com" fails and the warning is written,
    yet the later search for "b.io" brings "b.com" too, and the output
    gives it as Taken, not Unknown. *)
Lemma failed_followUp_resolved_later :
  let '(r, w) := CheckDomains (pwOf fanoutPage) ["a.com"; "b.com"; "b.io"] true w0 in
  r = Returned (Ok [mkDomainResult "a.com" StatusTaken "";
                    mkDomainResult "b.com" StatusTaken "";
                    mkDomainResult "b.io" StatusAvailable "$29.98/yr"]) /\
  trace w !! 11 = Some (warning "b.com" (rateLimited "b.com")).
Proof. vm_compute. split; reflexivity. Qed.

(** ** The theorems at work *)

(** The blank heading of a promotional card: the parse fails with "empty
    domain name" and the scraper leaves the accumulator alone. *)
Lemma parseArticle_name_errors_witness :
  (parseArticle promoArticle).2 = Some (Errorf "empty domain name" [] None) /\
  scrapeArticle (buildWanted ["a.com"]) ∅ promoArticle = ∅.
Proof.
  destruct (parseArticle_name_errors promoArticle) as (_ & [_ Hempty] & Hskip).
  assert ((parseArticle promoArticle).2 = Some (Errorf "empty domain name" [] None)) as He.
  { apply Hempty. exists (mkElement (Ok "   ")), "   ". vm_compute. auto. }
  split; [exact He | apply Hskip; right; exact He].
Defined.

Lemma parseArticle_status_witness :
  parseArticle availableArticle = (mkDomainResult "a.com" StatusAvailable "$9.98/yr", None) /\
  exists classes pre post,
    GetAttribute availableArticle "class" = Ok classes /\
    ToLower classes = pre ++ " available" ++ post.
Proof.
  assert (parseArticle availableArticle
          = (mkDomainResult "a.com" StatusAvailable "$9.98/yr", None)) as Hparse
    by (vm_compute; reflexivity).
  split; [exact Hparse|].
  destruct (parseArticle_status availableArticle _ Hparse) as ([Havailable _] & _).
  apply Havailable. reflexivity.
Defined.

Lemma searchAndScrape_wait_failure_witness :
  (goto_err (challengePage 0 (searchURL "x.dev")) = None /\
   waitfor_err (challengePage 0 (searchURL "x.dev"))
     = Some (External "Timeout 30000ms exceeded") /\
   errors_Is (External "Timeout 30000ms exceeded") errCloudflareBlocked = false) /\
  exists e w',
    searchAndScrape challengePage "x.dev" (buildWanted ["x.dev"]) ∅ w0 = (Some e, ∅, w') /\
    errors_Is e errCloudflareBlocked = true.
Proof.
  split; [split_and!; reflexivity|].
  destruct (searchAndScrape_wait_failure challengePage "x.dev" (buildWanted ["x.dev"]) ∅ w0
              (External "Timeout 30000ms exceeded") eq_refl eq_refl eq_refl)
    as (e & w' & Hcall & _ & Hblocked).
  exists e, w'. split; [exact Hcall|].
  apply Hblocked. exists "", "...". reflexivity.
Defined.

Lemma scrapeResults_last_match_wins_witness :
  let wanted := buildWanted ["a.com"] in
  let found := scrapeArticle wanted ∅ takenArticle in
  (parseArticle availableArticle
     = (mkDomainResult "a.com" StatusAvailable "$9.98/yr", None) /\
   wanted_at wanted "a.com" = true) /\
  scrapeArticle wanted found availableArticle
    = <["a.com" := mkDomainResult "a.com" StatusAvailable "$9.98/yr"]> found.
Proof.
  intros wanted found.
  assert (parseArticle availableArticle
          = (mkDomainResult "a.com" StatusAvailable "$9.98/yr", None)) as Hparse
    by (vm_compute; reflexivity).
  assert (wanted_at wanted "a.com" = true) as Hwanted by (vm_compute; reflexivity).
  split; [split; [exact Hparse | exact Hwanted]|].
  destruct (scrapeResults_last_match_wins wanted found) as [Hwrite _].
  exact (Hwrite availableArticle _ Hparse Hwanted).
Defined.

Lemma found_keys_wanted_witness :
  let found := (checkWithPage fanoutPage ["a.com"; "b.com"; "b.io"] w0).1.2 in
  is_Some (found !! "b.com") /\
  "b.com" ∈ ToLower <$> ["a.com"; "b.com"; "b.io"].
Proof.
  intros found.
  assert (is_Some (found !! "b.com")) as Hsome.
  { exists (mkDomainResult "b.com" StatusTaken ""). vm_compute. reflexivity. }
  destruct (found_keys_wanted fanoutPage ["a.com"; "b.com"; "b.io"] w0)
    as (_ & _ & _ & Hrun).
  split; [exact Hsome | exact (Hrun "b.com" Hsome)].
Defined.

(** * More of the code *)

(** ** Matching by derivatives *)

Lemma append_cons (c : ascii) (s t : string) : String c s ++ t = String c (s ++ t).
Proof. reflexivity. Qed.

Lemma append_empty_l (s : string) : "" ++ s = s.
Proof. reflexivity. Qed.

Lemma append_empty (s1 s2 : string) : s1 ++ s2 = "" -> s1 = "" /\ s2 = "".
Proof. destruct s1; [rewrite append_empty_l; auto | discriminate]. Qed.

Lemma append_empty_r (s : string) : s ++ "" = s.
Proof. induction s as [|c s IH]; [done | by rewrite append_cons, IH]. Qed.

Lemma append_assoc (s1 s2 s3 : string) : (s1 ++ s2) ++ s3 = s1 ++ s2 ++ s3.
Proof. induction s1 as [|c s1 IH]; [done | by rewrite !append_cons, IH]. Qed.

Lemma nullable_matches (r : regex) : nullable r = true <-> matches r "".
Proof.
  split.
  - induction r; simpl; intros Hn; try discriminate.
    + constructor.
    + apply andb_true_iff in Hn as [H1 H2].
      change "" with ("" ++ ""). constructor; auto.
    + apply orb_true_iff in Hn as [H1 | H2]; [apply matches_Alt_l | apply matches_Alt_r]; auto.
    + constructor.
  - remember "" as s eqn:Hs. intros Hm. induction Hm; simpl; subst; try done.
    + apply append_empty in Hs as [-> ->]. rewrite IHHm1, IHHm2; done.
    + rewrite IHHm; done.
    + rewrite IHHm, orb_true_r; done.
Qed.

Lemma deriv_sound (c : ascii) (r : regex) (s : string) :
  matches (deriv c r) s -> matches r (String c s).
Proof.
  revert s. induction r as [| |p|r1 IH1 r2 IH2|r1 IH1 r2 IH2|r1 IH1]; intros s; simpl.
  - inversion 1.
  - inversion 1.
  - destruct (p c) eqn:Hp; inversion 1; subst. by constructor.
  - destruct (nullable r1) eqn:Hn.
    + inversion 1 as [| |? ? ? ? Hm1 Hm2| ? ? ? Hm | ? ? ? Hm | |]; subst.
      * inversion Hm as [| |? ? s1 s2 Hm1 Hm2| | | |]; subst.
        change (String c (s1 ++ s2)) with (String c s1 ++ s2). constructor; auto.
      * change (String c s) with ("" ++ String c s).
        constructor; [by apply nullable_matches | auto].
    + inversion 1 as [| |? ? s1 s2 Hm1 Hm2| | | |]; subst.
      change (String c (s1 ++ s2)) with (String c s1 ++ s2). constructor; auto.
  - inversion 1; subst; [apply matches_Alt_l | apply matches_Alt_r]; auto.
  - inversion 1 as [| |? ? s1 s2 Hm1 Hm2| | | |]; subst.
    change (String c (s1 ++ s2)) with (String c s1 ++ s2). constructor; auto.
Qed.

Lemma deriv_complete (c : ascii) (r : regex) (s : string) :
  matches r (String c s) -> matches (deriv c r) s.
Proof.
  remember (String c s) as t eqn:Ht. intros Hm. revert c s Ht.
  induction Hm as [|p c0 Hp|r1 r2 s1 s2 Hm1 IH1 Hm2 IH2|r1 r2 s0 Hm IH|r1 r2 s0 Hm IH
                  |r|r s1 s2 Hm1 IH1 Hm2 IH2]; intros c s Ht; simpl.
  - discriminate.
  - injection Ht as -> <-. rewrite Hp. constructor.
  - destruct s1 as [|c1 s1]; [rewrite append_empty_l in Ht | rewrite append_cons in Ht].
    + assert (nullable r1 = true) as -> by (by apply nullable_matches).
      apply matches_Alt_r. by apply IH2.
    + injection Ht as -> <-.
      destruct (nullable r1); [apply matches_Alt_l|]; constructor; auto.
  - apply matches_Alt_l. by apply IH.
  - apply matches_Alt_r. by apply IH.
  - discriminate.
  - destruct s1 as [|c1 s1]; [rewrite append_empty_l in Ht | rewrite append_cons in Ht].
    + by apply IH2.
    + injection Ht as -> <-. constructor; auto.
Qed.

(** The matcher decides the language. *)
Lemma MatchString_matches (r : regex) (s : string) :
  MatchString r s = true <-> matches r s.
Proof.
  revert r. induction s as [|c s IH]; intros r; simpl.
  - apply nullable_matches.
  - rewrite IH. split; [apply deriv_sound | apply deriv_complete].
Qed.

(** ** The shape of an accepted domain *)

Lemma matches_Class_inv (p : ascii -> bool) (s : string) :
  matches (Class p) s <-> exists c, s = String c "" /\ p c = true.
Proof.
  split.
  - inversion 1; subst. eauto.
  - intros (c & -> & Hp). by constructor.
Qed.

Lemma matches_Seq_inv (r1 r2 : regex) (s : string) :
  matches (Seq r1 r2) s <-> exists s1 s2, s = s1 ++ s2 /\ matches r1 s1 /\ matches r2 s2.
Proof.
  split.
  - inversion 1; subst. eauto.
  - intros (s1 & s2 & -> & H1 & H2). by constructor.
Qed.

Lemma allChars_app (p : ascii -> bool) (s1 s2 : string) :
  allChars p (s1 ++ s2) = allChars p s1 && allChars p s2.
Proof.
  induction s1 as [|c s1 IH]; [done|].
  rewrite append_cons. simpl. by rewrite IH, andb_assoc.
Qed.

Lemma allChars_impl (p q : ascii -> bool) (s : string) :
  (forall c, p c = true -> q c = true) -> allChars p s = true -> allChars q s = true.
Proof.
  intros Hpq. induction s as [|c s IH]; simpl; [done|].
  rewrite !andb_true_iff. intros [Hc Hs]. auto.
Qed.

Lemma lastChar_snoc (p : ascii -> bool) (s : string) (z : ascii) :
  lastChar p (s ++ String z "") = p z.
Proof.
  induction s as [|c s IH]; [done|].
  rewrite append_cons. simpl. rewrite IH.
  destruct (s ++ String z "") eqn:E; [|done].
  by apply append_empty in E as [_ ?].
Qed.

Lemma string_snoc (s : string) :
  s <> "" -> exists front z, s = front ++ String z "".
Proof.
  induction s as [|c s IH]; [done|]. intros _.
  destruct s as [|c' s].
  - exists "", c. done.
  - destruct IH as (front & z & ->); [done|]. exists (String c front), z. done.
Qed.

Lemma matches_Star_Class (p : ascii -> bool) (s : string) :
  matches (Star (Class p)) s <-> allChars p s = true.
Proof.
  split.
  - remember (Star (Class p)) as r eqn:Hr. intros Hm.
    induction Hm as [| | | | | |r s1 s2 Hm1 _ Hm2 IH2]; try discriminate; [done|].
    injection Hr as ->. apply matches_Class_inv in Hm1 as (c & -> & Hc).
    rewrite append_cons, append_empty_l. simpl. rewrite Hc. by apply IH2.
  - induction s as [|c s IH]; simpl; [constructor|].
    rewrite andb_true_iff. intros [Hc Hs].
    change (String c s) with (String c "" ++ s). constructor; [by constructor | auto].
Qed.

Lemma alnum_hyphen_of_alnum (c : ascii) : alnum c = true -> alnum_hyphen c = true.
Proof. unfold alnum_hyphen. by intros ->. Qed.

Lemma alnum_of_alpha (c : ascii) : alpha c = true -> alnum c = true.
Proof. unfold alnum. by intros ->. Qed.

Lemma dot_eq (c : ascii) : dot c = true <-> c = "."%char.
Proof.
  unfold dot. rewrite Nat.eqb_eq. split.
  - intros Hc. rewrite <- (ascii_nat_embedding c), Hc. reflexivity.
  - by intros ->.
Qed.

(** [([a-zA-Z0-9-]*[a-zA-Z0-9])?] *)
Lemma matches_label_rest (rest : string) :
  matches (Opt (Seq (Star (Class alnum_hyphen)) (Class alnum))) rest <->
  allChars alnum_hyphen rest && lastChar alnum rest = true.
Proof.
  unfold Opt. split.
  - inversion 1 as [| | |? ? ? Hm|? ? ? Hm| |]; subst.
    + apply matches_Seq_inv in Hm as (front & last & -> & Hfront & Hlast).
      apply matches_Star_Class in Hfront.
      apply matches_Class_inv in Hlast as (z & -> & Hz).
      rewrite allChars_app, lastChar_snoc, Hfront, Hz. simpl.
      by rewrite (alnum_hyphen_of_alnum z Hz).
    + by inversion Hm.
  - rewrite andb_true_iff. intros [Hall Hlast].
    destruct (decide (rest = "")) as [->|Hne]; [apply matches_Alt_r; constructor|].
    apply string_snoc in Hne as (front & z & ->).
    rewrite allChars_app, andb_true_iff in Hall. destruct Hall as [Hfront _].
    rewrite lastChar_snoc in Hlast.
    apply matches_Alt_l, matches_Seq_inv. exists front, (String z "").
    split_and!; [done | by apply matches_Star_Class | by constructor].
Qed.

Lemma matches_dotted (s : string) :
  matches dottedRegex s <-> exists t, s = "." ++ t /\ dottedLabel t = true.
Proof.
  unfold dottedRegex, dottedLabel. split.
  - intros Hm.
    apply matches_Seq_inv in Hm as (s1 & s2 & -> & H1 & Hm).
    apply matches_Seq_inv in Hm as (s3 & s4 & -> & H3 & Hm).
    apply matches_Seq_inv in Hm as (s5 & s6 & -> & H5 & H6).
    apply matches_Class_inv in H1 as (c1 & -> & Hc1). apply dot_eq in Hc1 as ->.
    apply matches_Class_inv in H3 as (c3 & -> & Hc3).
    apply matches_Class_inv in H5 as (c5 & -> & Hc5).
    apply matches_Star_Class in H6.
    exists (String c3 (String c5 s6)). split; [done|].
    simpl. by rewrite Hc3, Hc5, H6.
  - intros (t & -> & Ht). apply andb_true_iff in Ht as [Hlen Hall].
    destruct t as [|a [|b t]]; simpl in Hlen; try discriminate.
    simpl in Hall. apply andb_true_iff in Hall as [Ha Hall].
    apply andb_true_iff in Hall as [Hb Hall].
    change ("." ++ String a (String b t))
      with (String "." "" ++ String a "" ++ String b "" ++ t).
    repeat (constructor; [by constructor|]). by apply matches_Star_Class.
Qed.

Lemma matches_Star_dotted (s : string) :
  matches (Star dottedRegex) s <->
  exists labels, s = joinDotted labels /\ forallb dottedLabel labels = true.
Proof.
  split.
  - remember (Star dottedRegex) as r eqn:Hr. intros Hm.
    induction Hm as [| | | | | |r s1 s2 Hm1 _ Hm2 IH2]; try discriminate.
    + exists []. done.
    + injection Hr as ->. destruct (IH2 eq_refl) as (labels & -> & Hall).
      apply matches_dotted in Hm1 as (t & -> & Ht).
      exists (t :: labels). split.
      * simpl. by rewrite append_assoc.
      * simpl. by rewrite Ht, Hall.
  - intros (labels & -> & Hall). induction labels as [|t labels IH]; simpl.
    + constructor.
    + simpl in Hall. apply andb_true_iff in Hall as [Ht Hall].
      rewrite <- append_assoc.
      constructor; [apply matches_dotted; eauto | auto].
Qed.

(** The language of [domainRegex]: a first label, then one or more dotted
    labels. *)
Lemma domainRegex_language (s : string) :
  matches domainRegex s <->
  exists label labels,
    s = label ++ joinDotted labels /\ firstLabel label = true /\
    labels <> [] /\ forallb dottedLabel labels = true.
Proof.
  unfold domainRegex, Plus. fold dottedRegex. split.
  - intros Hm.
    apply matches_Seq_inv in Hm as (s1 & s2 & -> & H1 & Hm).
    apply matches_Seq_inv in Hm as (rest & s3 & -> & Hrest & Hm).
    apply matches_Seq_inv in Hm as (s4 & s5 & -> & H4 & H5).
    apply matches_Class_inv in H1 as (c & -> & Hc).
    apply matches_label_rest in Hrest.
    apply matches_dotted in H4 as (t & -> & Ht).
    apply matches_Star_dotted in H5 as (labels & -> & Hall).
    exists (String c rest), (t :: labels). split_and!.
    + simpl. by rewrite !append_cons, append_empty_l, !append_assoc.
    + simpl. by rewrite Hc, <- andb_assoc, Hrest.
    + done.
    + simpl. by rewrite Ht, Hall.
  - intros (label & labels & -> & Hlabel & Hne & Hall).
    destruct label as [|c rest]; [done|]. destruct labels as [|t labels]; [done|].
    simpl in Hlabel. rewrite <- andb_assoc in Hlabel.
    apply andb_true_iff in Hlabel as [Hc Hrest].
    simpl in Hall. apply andb_true_iff in Hall as [Ht Hall].
    change (String c rest ++ joinDotted (t :: labels))
      with (String c "" ++ rest ++ joinDotted (t :: labels)).
    constructor; [by constructor|].
    constructor; [by apply matches_label_rest|].
    simpl. rewrite <- append_assoc.
    constructor; [apply matches_dotted; eauto | apply matches_Star_dotted; eauto].
Qed.

(** X1. [domainRegex] accepts exactly the strings made of a first label
    (letters, digits and hyphens, no hyphen first or last) followed by one
    or more dotted labels of two or more letters each. *)
Theorem domainRegex_shape (s : string) :
  MatchString domainRegex s = true <->
  exists label labels,
    s = label ++ joinDotted labels /\ firstLabel label = true /\
    labels <> [] /\ forallb dottedLabel labels = true.
Proof. rewrite MatchString_matches. apply domainRegex_language. Qed.

Lemma joinDotted_bytes (labels : list string) :
  forallb dottedLabel labels = true ->
  allChars (fun c => alpha c || dot c) (joinDotted labels) = true.
Proof.
  induction labels as [|t labels IH]; simpl; [done|].
  rewrite andb_true_iff. intros [Ht Hall]. unfold dottedLabel in Ht.
  apply andb_true_iff in Ht as [_ Ht].
  rewrite append_empty_l, allChars_app, IH by done.
  rewrite andb_true_r. apply (allChars_impl alpha); [|done].
  by intros c ->.
Qed.

(** X2. A domain that [domainRegex] accepts has only letters, digits,
    hyphens and dots; it begins with a label that is not empty, and after
    its first dot it has letters and dots only. *)
Theorem accepted_domain_bytes (s : string) :
  MatchString domainRegex s = true ->
  allChars (fun c => alnum_hyphen c || dot c) s = true /\
  exists label tail,
    s = label ++ "." ++ tail /\ label <> "" /\
    allChars alnum_hyphen label = true /\
    allChars (fun c => alpha c || dot c) tail = true.
Proof.
  intros Hm. apply MatchString_matches, domainRegex_language in Hm
    as (label & labels & -> & Hlabel & Hne & Hall).
  assert (allChars alnum_hyphen label = true /\ label <> "") as [Hbytes Hlabel_ne].
  { destruct label as [|c rest]; [done|]. simpl in Hlabel.
    apply andb_true_iff in Hlabel as [Hlabel _].
    apply andb_true_iff in Hlabel as [Hc Hrest].
    split; [|done]. simpl. by rewrite (alnum_hyphen_of_alnum c Hc), Hrest. }
  pose proof (joinDotted_bytes labels Hall) as Htail.
  split.
  - rewrite allChars_app, andb_true_iff. split.
    + apply (allChars_impl alnum_hyphen); [|done]. by intros c ->.
    + apply (allChars_impl (fun c => alpha c || dot c)); [|done].
      intros c Hc. apply orb_true_iff in Hc as [Hc| ->]; [|apply orb_true_r].
      by rewrite (alnum_hyphen_of_alnum c (alnum_of_alpha c Hc)).
  - destruct labels as [|t labels]; [done|].
    exists label, (t ++ joinDotted labels). split_and!; done.
Qed.

(** ** The alignment in [printResults] *)

Lemma maxLen_from (results : list DomainResult) (acc : Z) :
  let m := foldl (fun maxLen r =>
                    if (maxLen <? len (Domain r))%Z then len (Domain r) else maxLen)
             acc results in
  (acc <= m)%Z /\ forall r, r ∈ results -> (len (Domain r) <= m)%Z.
Proof.
  revert acc. induction results as [|r0 results IH]; intros acc; simpl.
  - split; [lia|]. intros r Hr. by apply elem_of_nil in Hr.
  - destruct (IH (if (acc <? len (Domain r0))%Z then len (Domain r0) else acc))
      as [Hacc Hall].
    split.
    + destruct (acc <? len (Domain r0))%Z eqn:E; [apply Z.ltb_lt in E|]; lia.
    + intros r Hr. apply elem_of_cons in Hr as [->|Hr]; [|by apply Hall].
      destruct (acc <? len (Domain r0))%Z eqn:E; [|apply Z.ltb_ge in E]; lia.
Qed.

Lemma length_append (s1 s2 : string) :
  String.length (s1 ++ s2) = String.length s1 + String.length s2.
Proof. induction s1 as [|c s1 IH]; [done|]. rewrite append_cons. simpl. by rewrite IH. Qed.

Lemma length_repeatString_space (count : nat) :
  String.length (repeatString " " count) = count.
Proof.
  induction count as [|count IH]; [done|].
  cbn [repeatString]. rewrite length_append, IH. done.
Qed.

Lemma maxLen_attained (results : list DomainResult) (acc : Z) :
  let m := foldl (fun maxLen r =>
                    if (maxLen <? len (Domain r))%Z then len (Domain r) else maxLen)
             acc results in
  m = acc \/ exists r, r ∈ results /\ len (Domain r) = m.
Proof.
  revert acc. induction results as [|r0 results IH]; intros acc; simpl; [by left|].
  destruct (IH (if (acc <? len (Domain r0))%Z then len (Domain r0) else acc))
    as [Heq | (r & Hr & Hlen)].
  - rewrite Heq. destruct (acc <? len (Domain r0))%Z; [right | by left].
    exists r0. split; [constructor | done].
  - right. exists r. split; [by constructor | done].
Qed.

(** X3. In [printResults], for a list that is not empty, [maxLen] is the
    length of one of the domains of the list and no domain of the list is
    longer: it is the length of the longest.  So the count given to
    [strings.Repeat] is never negative, the padding never panics, and every
    padded name is the domain followed by spaces up to that length. *)
Theorem padded_aligned (results : list DomainResult) (r : DomainResult) :
  r ∈ results ->
  (exists longest, longest ∈ results /\ len (Domain longest) = maxLen results) /\
  (forall r', r' ∈ results -> (len (Domain r') <= maxLen results)%Z) /\
  exists pad,
    padded (maxLen results) r = Returned (Domain r ++ pad) /\
    allChars (fun c => Ascii.eqb c " ") pad = true /\
    len (Domain r ++ pad) = maxLen results.
Proof.
  intros Hr. destruct (maxLen_from results 0%Z) as [_ Hall].
  fold (maxLen results) in Hall. split_and!.
  - destruct (maxLen_attained results 0%Z) as [Hzero | Hex]; [|exact Hex].
    fold (maxLen results) in Hzero. exists r. split; [done|].
    specialize (Hall r Hr). unfold len in *. lia.
  - exact Hall.
  - specialize (Hall r Hr). unfold padded, Repeat.
    destruct (maxLen results - len (Domain r) <? 0)%Z eqn:E; [apply Z.ltb_lt in E; lia|].
    eexists. split; [reflexivity|]. split.
    + generalize (Z.to_nat (maxLen results - len (Domain r))).
      induction n as [|n IH]; [done|].
      cbn [repeatString]. rewrite allChars_app, IH. done.
    + unfold len in *. rewrite length_append, length_repeatString_space. lia.
Qed.

(** ** More on the parser and the scraper *)

Section ParserMore.
Context `{GoStrings}.

(** X4. [parseArticle] succeeds exactly when there is a heading, its text
    can be read and is not empty once trimmed, and the domain of the result
    is then that trimmed text; it fails with "getting domain text" around
    the driver's error exactly when there is a heading whose text cannot be
    read. *)
Theorem parseArticle_outcome (article : Article) :
  ((parseArticle article).2 = None <->
     exists el name, heading article = Some el /\ TextContent el = Ok name /\
       TrimSpace name <> "") /\
  (forall el name,
     heading article = Some el -> TextContent el = Ok name -> TrimSpace name <> "" ->
     Domain (parseArticle article).1 = TrimSpace name) /\
  (forall err,
     (parseArticle article).2 = Some (Errorf "getting domain text: %w" [] (Some err)) <->
     exists el, heading article = Some el /\ TextContent el = Err err).
Proof.
  pose proof (nameLocator_heading article) as Hh.
  split_and!.
  - split.
    + intros Hok. destruct (parseArticle article) as [r e] eqn:E. simpl in Hok. subst e.
      apply parseArticle_ok in E as (el & name & Hel & Hname & Hdom & Hne & _).
      exists el, name. rewrite <- Hdom. done.
    + intros (el & name & Hel & Hname & Hne). unfold parseArticle.
      destruct (nameLocator article) as [nl|]; [|congruence].
      destruct Hh as (el' & Hel' & ->). rewrite Hel in Hel'. injection Hel' as <-.
      rewrite Hname. simpl. by rewrite bool_decide_eq_false_2.
  - intros el name Hel Hname Hne. unfold parseArticle.
    destruct (nameLocator article) as [nl|]; [|congruence].
    destruct Hh as (el' & Hel' & ->). rewrite Hel in Hel'. injection Hel' as <-.
    rewrite Hname. simpl. rewrite bool_decide_eq_false_2 by done. simpl.
    destruct (articlePrice_fields article
      (articleStatus article (set_Domain zeroDomainResult (TrimSpace name)))) as [-> _].
    by destruct (articleStatus_fields article
      (set_Domain zeroDomainResult (TrimSpace name))) as [-> _].
  - intros err. unfold parseArticle.
    destruct (nameLocator article) as [nl|].
    + destruct Hh as (el & Hel & ->).
      destruct (TextContent el) as [name|e] eqn:Hname; simpl.
      * split; [case_bool_decide; done|].
        intros (el' & Hel' & Herr). rewrite Hel in Hel'. injection Hel' as <-. congruence.
      * split.
        -- intros [= ->]. eauto.
        -- intros (el' & Hel' & Herr). rewrite Hel in Hel'. injection Hel' as <-.
           congruence.
    + simpl. split; [done|]. intros (el & Hel & _). congruence.
Qed.

(** X5. The price of a parsed result is the trimmed text of the first
    [.price strong] element; it is empty, and the parse still succeeds,
    when there is no such element or its text cannot be read. *)
Theorem parseArticle_price (article : Article) (r : DomainResult) :
  parseArticle article = (r, None) ->
  Price r =
  match Locator article ".price strong" with
  | [] => ""
  | el :: _ =>
      match TextContent el with
      | Ok price => TrimSpace price
      | Err _ => ""
      end
  end.
Proof.
  intros Hok. apply parseArticle_ok in Hok as (el & name & _ & _ & _ & _ & ->).
  unfold articlePrice.
  destruct (articleStatus_fields article
              (mkDomainResult (TrimSpace name) StatusUnknown "")) as [_ Hprice].
  destruct (Locator article ".price strong") as [|pel l]; simpl; [done|].
  destruct (TextContent pel); simpl; done.
Qed.

(** X6. [scrapeResults] lists the elements once and fails exactly when the
    listing fails, with the driver's error wrapped and the accumulator as
    it was.  Elements that do not parse, or whose domain is not wanted, are
    passed over without an error: a page of such elements leaves the
    accumulator as it was. *)
Theorem scrapeResults_outcome loaded wanted (found : gmap string DomainResult) (w : World) :
  (scrapeResults loaded wanted found w).2 = emit EAll w /\
  match all_articles loaded with
  | Err err =>
      (scrapeResults loaded wanted found w).1 =
        (Some (Errorf "querying results: %w" [] (Some err)), found)
  | Ok articles =>
      (scrapeResults loaded wanted found w).1.1 = None /\
      (Forall (fun article =>
                 (parseArticle article).2 <> None \/
                 wanted_at wanted (ToLower (Domain (parseArticle article).1)) = false)
         articles ->
       (scrapeResults loaded wanted found w).1.2 = found)
  end.
Proof.
  unfold scrapeResults. destruct (all_articles loaded) as [articles|err]; simpl; [|done].
  split_and!; try done.
  revert found. induction articles as [|a articles IH]; intros found Hall; [done|].
  apply Forall_cons in Hall as [Ha Hall]. simpl.
  assert (scrapeArticle wanted found a = found) as ->; [|by apply IH].
  unfold scrapeArticle. destruct (parseArticle a) as [r [e|]]; simpl in *; [done|].
  destruct Ha as [?| ->]; done.
Qed.

(** *** Keys are never taken out *)

Lemma scrapeArticle_dom wanted (found : gmap string DomainResult) article :
  dom found ⊆ dom (scrapeArticle wanted found article).
Proof.
  unfold scrapeArticle. destruct (parseArticle article) as [r [e|]]; [done|].
  destruct (wanted_at wanted _); [|done]. rewrite dom_insert. set_solver.
Qed.

Lemma searchAndScrape_dom page query wanted (found : gmap string DomainResult) w :
  dom found ⊆ dom (searchAndScrape page query wanted found w).1.2.
Proof.
  unfold searchAndScrape.
  destruct (goto_err _); [done|]. destruct (waitfor_err _).
  - destruct (Contains _ _); done.
  - unfold scrapeResults. destruct (all_articles _) as [articles|]; simpl; [|done].
    generalize (stabilize (page (navs w) (searchURL query))
                  (emit (EWaitFor 30000) (navigate (searchURL query) w))).
    intros _. revert found. induction articles as [|a articles IH]; intros found; [done|].
    simpl. etrans; [apply (scrapeArticle_dom wanted found a) | apply IH].
Qed.

Lemma retryLoop_dom page query wanted attempts lastErr (found : gmap string DomainResult) w :
  dom found ⊆ dom (retryLoop page query wanted attempts lastErr found w).1.2.
Proof.
  revert lastErr found w. induction attempts as [|attempt attempts IH];
    intros lastErr found w; cbn [retryLoop]; [done|].
  pose proof (searchAndScrape_dom page query wanted found (backoff query attempt w)) as H1.
  destruct (searchAndScrape page query wanted found (backoff query attempt w))
    as [[e1 f1] w1]. simpl in H1.
  destruct e1 as [err1|]; [|done].
  destruct (negb (errors_Is err1 errCloudflareBlocked)); [done|].
  etrans; [exact H1 | apply IH].
Qed.

Lemma searchWithRetry_dom page query wanted (found : gmap string DomainResult) w :
  dom found ⊆ dom (searchWithRetry page query wanted found w).1.2.
Proof.
  unfold searchWithRetry.
  pose proof (retryLoop_dom page query wanted (seq 0 maxRetries) None found w) as H1.
  destruct (retryLoop page query wanted (seq 0 maxRetries) None found w) as [[r f] w1].
  destruct r; done.
Qed.

Lemma followUps_dom page wanted domains (found : gmap string DomainResult) w :
  dom found ⊆ dom (followUps page wanted domains found w).1.
Proof.
  revert found w. induction domains as [|d domains IH]; intros found w;
    cbn [followUps]; [done|].
  destruct (found !! ToLower d); [apply IH|].
  pose proof (searchWithRetry_dom page d wanted found (Sleep (1500 * Millisecond) w)) as H1.
  destruct (searchWithRetry page d wanted found (Sleep (1500 * Millisecond) w))
    as [[e1 f1] w1]. simpl in H1.
  etrans; [exact H1 | apply IH].
Qed.

(** X7. No search takes a key out of the accumulator: the keys present
    before a retried search, or before the loop of the follow-up searches,
    are present after it. *)
Theorem found_keys_kept page wanted (found : gmap string DomainResult) (w : World) :
  (forall query, dom found ⊆ dom (searchWithRetry page query wanted found w).1.2) /\
  (forall domains, dom found ⊆ dom (followUps page wanted domains found w).1).
Proof.
  split; intros; [apply searchWithRetry_dom | apply followUps_dom].
Qed.

End ParserMore.

(** ** More on one search *)

Section SearchMore.
Context `{GoStrings}.

(** X8. The order of a search.  A navigation that fails ends it at once,
    with the driver's error wrapped.  When the wait for the first result
    fails the title is read and nothing else is done.  Only when the wait
    succeeded are the results polled (one to five times) and then listed,
    and the search then succeeds exactly when the listing does. *)
Theorem searchAndScrape_order page query wanted (found : gmap string DomainResult)
    (w : World) :
  let url := searchURL query in
  let loaded := page (navs w) url in
  let call := searchAndScrape page query wanted found w in
  match goto_err loaded, waitfor_err loaded with
  | Some err, _ =>
      call = (Some (Errorf "navigating to namecheap: %w" [] (Some err)), found,
              mkWorld (S (navs w)) (trace w ++ [EGoto url]))
  | None, Some _ =>
      call.1.2 = found /\ is_Some call.1.1 /\
      call.2 = mkWorld (S (navs w)) (trace w ++ [EGoto url; EWaitFor 30000; ETitle])
  | None, None =>
      exists m, 1 <= m <= 5 /\
        call.2 = mkWorld (S (navs w))
                   (trace w ++ [EGoto url; EWaitFor 30000] ++ pollEvents m ++ [EAll]) /\
        (call.1.1 = None <-> exists articles, all_articles loaded = Ok articles)
  end.
Proof.
  intros url loaded call. subst call. unfold searchAndScrape. fold url loaded.
  destruct (goto_err loaded) as [err|]; [done|].
  destruct (waitfor_err loaded) as [err|].
  - destruct (Contains _ _); simpl; (split_and!; [done | by eexists |]);
      unfold emit, navigate; simpl; by rewrite <- !app_assoc.
  - destruct (pollLoop_spec loaded 5 0 0 (emit (EWaitFor 30000) (navigate url w)) eq_refl)
      as (m & Hle & Hpos & Heq & _).
    exists m. split; [lia|]. unfold stabilize. rewrite Heq.
    unfold scrapeResults. destruct (all_articles loaded) as [articles|e]; simpl.
    + split; [unfold emit; simpl; by rewrite <- !app_assoc | split; eauto].
    + split; [unfold emit; simpl; by rewrite <- !app_assoc |].
      split; [done | by intros [? ?]].
Qed.

(** X9. An error of [searchWithRetry] leaves the accumulator as it was.  It
    is a Blocked error exactly when it is the "giving up" error around a
    Blocked error, and then three navigations were made. *)
Theorem searchWithRetry_blocked page query wanted (found f : gmap string DomainResult)
    (w w' : World) (e : error) :
  searchWithRetry page query wanted found w = (Some e, f, w') ->
  f = found /\
  (errors_Is e errCloudflareBlocked = true <->
     exists last,
       e = Errorf "giving up after %d attempts: %w" [VInt 3] (Some last) /\
       errors_Is last errCloudflareBlocked = true) /\
  (errors_Is e errCloudflareBlocked = true -> navs w' = navs w + 3).
Proof.
  intros Hcall. split; [by eapply searchWithRetry_error|].
  assert (forall x, errors_Is x errCloudflareBlocked = false ->
            (errors_Is x errCloudflareBlocked = true <->
               exists last,
                 x = Errorf "giving up after %d attempts: %w" [VInt 3] (Some last) /\
                 errors_Is last errCloudflareBlocked = true) /\
            (errors_Is x errCloudflareBlocked = true -> navs w' = navs w + 3)) as Hnot.
  { intros x Hx. split; [split|]; [congruence | | congruence].
    intros (last & -> & Hlast). cbn [errors_Is error_eqb] in Hx. by rewrite Hlast in Hx. }
  revert Hcall. unfold searchWithRetry. cbn [seq maxRetries retryLoop].
  rewrite backoff_first.
  pose proof (searchAndScrape_navs page query wanted found w) as N1.
  destruct (searchAndScrape page query wanted found w) as [[e1 f1] w1]. simpl in N1.
  destruct e1 as [err1|]; [|done].
  destruct (errors_Is err1 errCloudflareBlocked) eqn:B1; cbn [negb];
    [|intros [= <- <- <-]; by apply Hnot].
  pose proof (searchAndScrape_navs page query wanted f1 (backoff query 1 w1)) as N2.
  rewrite backoff_navs in N2.
  destruct (searchAndScrape page query wanted f1 (backoff query 1 w1)) as [[e2 f2] w2].
  simpl in N2. destruct e2 as [err2|]; [|done].
  destruct (errors_Is err2 errCloudflareBlocked) eqn:B2; cbn [negb];
    [|intros [= <- <- <-]; by apply Hnot].
  pose proof (searchAndScrape_navs page query wanted f2 (backoff query 2 w2)) as N3.
  rewrite backoff_navs in N3.
  destruct (searchAndScrape page query wanted f2 (backoff query 2 w2)) as [[e3 f3] w3].
  simpl in N3. destruct e3 as [err3|]; [|done].
  destruct (errors_Is err3 errCloudflareBlocked) eqn:B3; cbn [negb];
    [|intros [= <- <- <-]; by apply Hnot].
  intros [= <- <- <-]. split; [|intros _; lia].
  split; [intros _; eauto|]. intros _. cbn [errors_Is error_eqb]. by rewrite B3.
Qed.

(** *** The time slept *)

Lemma slept_app (evs1 evs2 : list Event) :
  slept (evs1 ++ evs2) = (slept evs1 + slept evs2)%Z.
Proof. induction evs1 as [|e evs1 IH]; simpl; [done|]. rewrite IH. lia. Qed.

Lemma slept_emit (e : Event) (w : World) :
  slept (trace (emit e w)) = (slept (trace w) + sleepOf e)%Z.
Proof. unfold emit. simpl. rewrite slept_app. simpl. lia. Qed.

Lemma slept_pollEvents (m : nat) :
  slept (pollEvents m) = (Z.of_nat m * (400 * Millisecond))%Z.
Proof.
  induction m as [|m IH]; [done|].
  change (pollEvents (S m))
    with (ESleep (400 * Millisecond) :: ECount :: pollEvents m).
  cbn [slept foldr sleepOf]. fold (slept (pollEvents m)). rewrite IH. lia.
Qed.

Lemma slept_navigate (url : string) (w : World) :
  slept (trace (navigate url w)) = slept (trace w).
Proof. unfold navigate. simpl. rewrite slept_app. simpl. lia. Qed.

Lemma searchAndScrape_slept page query wanted (found : gmap string DomainResult) w :
  (slept (trace w) <= slept (trace (searchAndScrape page query wanted found w).2)
   <= slept (trace w) + 2 * Second)%Z.
Proof.
  unfold searchAndScrape.
  destruct (goto_err _); [cbn [snd]; rewrite slept_navigate; unfold Second; lia|].
  destruct (waitfor_err _).
  - destruct (Contains _ _); cbn [snd]; rewrite !slept_emit, slept_navigate; simpl;
      unfold Second; lia.
  - destruct (pollLoop_spec (page (navs w) (searchURL query)) 5 0 0
                (emit (EWaitFor 30000) (navigate (searchURL query) w)) eq_refl)
      as (m & Hle & _ & Heq & _).
    unfold stabilize. rewrite Heq.
    unfold scrapeResults. destruct (all_articles _); cbn [snd];
      rewrite slept_emit; cbn [trace]; rewrite slept_app, slept_pollEvents,
        slept_emit, slept_navigate; simpl; unfold Second, Millisecond; lia.
Qed.

Lemma backoff_slept query attempt w :
  slept (trace (backoff query attempt w))
  = (slept (trace w) + Z.of_nat (attempt * 3) * Second)%Z.
Proof.
  unfold backoff. destruct attempt as [|attempt]; [simpl; lia|].
  cbn [Nat.ltb Nat.leb]. unfold Sleep. rewrite !slept_emit. simpl. lia.
Qed.

Lemma searchWithRetry_slept page query wanted (found : gmap string DomainResult) w :
  (slept (trace w) <= slept (trace (searchWithRetry page query wanted found w).2)
   <= slept (trace w) + 15 * Second)%Z.
Proof.
  unfold searchWithRetry. cbn [seq maxRetries retryLoop].
  pose proof (searchAndScrape_slept page query wanted found (backoff query 0 w)) as S1.
  rewrite backoff_slept in S1.
  destruct (searchAndScrape page query wanted found (backoff query 0 w)) as [[e1 f1] w1].
  simpl in S1. destruct e1 as [err1|]; [|simpl; unfold Second in *; lia].
  destruct (negb (errors_Is err1 errCloudflareBlocked)); [simpl; unfold Second in *; lia|].
  pose proof (searchAndScrape_slept page query wanted f1 (backoff query 1 w1)) as S2.
  rewrite backoff_slept in S2.
  destruct (searchAndScrape page query wanted f1 (backoff query 1 w1)) as [[e2 f2] w2].
  simpl in S2. destruct e2 as [err2|]; [|simpl; unfold Second in *; lia].
  destruct (negb (errors_Is err2 errCloudflareBlocked)); [simpl; unfold Second in *; lia|].
  pose proof (searchAndScrape_slept page query wanted f2 (backoff query 2 w2)) as S3.
  rewrite backoff_slept in S3.
  destruct (searchAndScrape page query wanted f2 (backoff query 2 w2)) as [[e3 f3] w3].
  simpl in S3. destruct e3 as [err3|]; [|simpl; unfold Second in *; lia].
  destruct (negb (errors_Is err3 errCloudflareBlocked)); simpl; unfold Second in *; lia.
Qed.

Lemma slept_Sleep (d : Z) (w : World) :
  slept (trace (Sleep d w)) = (slept (trace w) + d)%Z.
Proof. unfold Sleep. by rewrite slept_emit. Qed.

Lemma followUps_slept page wanted domains (found : gmap string DomainResult) w :
  (slept (trace w) <= slept (trace (followUps page wanted domains found w).2)
   <= slept (trace w) + Z.of_nat (length domains) * (1500 * Millisecond + 15 * Second))%Z.
Proof.
  revert found w. induction domains as [|d domains IH]; intros found w;
    cbn [followUps length].
  - cbn [snd]. lia.
  - destruct (found !! ToLower d).
    + specialize (IH found w). unfold Second, Millisecond in *. lia.
    + pose proof (searchWithRetry_slept page d wanted found
                    (Sleep (1500 * Millisecond) w)) as S1.
      rewrite slept_Sleep in S1.
      destruct (searchWithRetry page d wanted found (Sleep (1500 * Millisecond) w))
        as [[e1 f1] w1]. cbn [snd] in S1.
      destruct e1 as [err1|].
      * specialize (IH f1 (emit (warning d err1) w1)).
        rewrite slept_emit in IH. unfold warning in IH. cbn [sleepOf] in IH.
        unfold Second, Millisecond in *. lia.
      * specialize (IH f1 w1). unfold Second, Millisecond in *. lia.
Qed.

End SearchMore.

(** ** More on a run *)

Section RunMore.
Context `{GoStrings}.

Lemma steps_refl (P : Event -> Prop) (w : World) : steps P w w.
Proof. exists []. simpl. rewrite app_nil_r. split_and!; [done | constructor | lia]. Qed.

Lemma steps_trans (P : Event -> Prop) (w1 w2 w3 : World) :
  steps P w1 w2 -> steps P w2 w3 -> steps P w1 w3.
Proof.
  intros (evs1 & Ht1 & Hp1 & Hn1) (evs2 & Ht2 & Hp2 & Hn2).
  exists (evs1 ++ evs2)%list. split_and!.
  - by rewrite Ht2, Ht1, app_assoc.
  - by apply Forall_app.
  - unfold navigated in *. rewrite omap_app, length_app. lia.
Qed.

Lemma steps_emit (P : Event -> Prop) (e : Event) (w : World) :
  P e -> urlOf e = None -> steps P w (emit e w).
Proof.
  intros He Hurl. exists [e]. split_and!; [done | by repeat constructor |].
  unfold navigated. simpl. rewrite Hurl. simpl. lia.
Qed.

Lemma steps_navigate (P : Event -> Prop) (url : string) (w : World) :
  P (EGoto url) -> steps P w (navigate url w).
Proof.
  intros He. exists [EGoto url]. split_and!; [done | by repeat constructor |].
  simpl. lia.
Qed.

Lemma engineEvent_sleep (domains : list string) (d : Z) :
  d ∈ [(400 * Millisecond)%Z; (1500 * Millisecond)%Z; (3 * Second)%Z; (6 * Second)%Z] ->
  engineEvent domains (ESleep d).
Proof. done. Qed.

Lemma pollLoop_steps (domains : list string) n k prevCount loaded w :
  steps (engineEvent domains) w (pollLoop n k prevCount loaded w).
Proof.
  revert k prevCount w. induction n as [|n IH]; intros k prevCount w; cbn [pollLoop].
  - apply steps_refl.
  - assert (steps (engineEvent domains) w (emit ECount (Sleep (400 * Millisecond) w)))
      as Hstep.
    { eapply steps_trans; [apply steps_emit | apply steps_emit]; try done.
      apply engineEvent_sleep. set_solver. }
    destruct (_ && _); [done|]. eapply steps_trans; [exact Hstep | apply IH].
Qed.

Lemma searchAndScrape_steps (domains : list string) page query wanted
    (found : gmap string DomainResult) w :
  query ∈ domains ->
  steps (engineEvent domains) w (searchAndScrape page query wanted found w).2.
Proof.
  intros Hq. unfold searchAndScrape.
  assert (steps (engineEvent domains) w (navigate (searchURL query) w)) as Hnav.
  { apply steps_navigate. simpl. apply list_elem_of_fmap. eauto. }
  destruct (goto_err _); [done|].
  assert (steps (engineEvent domains) w
            (emit (EWaitFor 30000) (navigate (searchURL query) w))) as Hwait.
  { eapply steps_trans; [exact Hnav | by apply steps_emit]. }
  destruct (waitfor_err _).
  - assert (steps (engineEvent domains) w
              (emit ETitle (emit (EWaitFor 30000) (navigate (searchURL query) w)))).
    { eapply steps_trans; [exact Hwait | by apply steps_emit]. }
    destruct (Contains _ _); done.
  - assert (steps (engineEvent domains) w
              (emit EAll (stabilize (page (navs w) (searchURL query))
                            (emit (EWaitFor 30000) (navigate (searchURL query) w))))).
    { eapply steps_trans; [exact Hwait|].
      eapply steps_trans; [apply pollLoop_steps | by apply steps_emit]. }
    unfold scrapeResults. destruct (all_articles _); done.
Qed.

Lemma backoff_steps (domains : list string) query attempt w :
  attempt <= 2 -> steps (engineEvent domains) w (backoff query attempt w).
Proof.
  intros Hle. unfold backoff. destruct (0 <? attempt) eqn:E; [|apply steps_refl].
  apply Nat.ltb_lt in E.
  eapply steps_trans; apply steps_emit; try done.
  - simpl. set_solver.
  - apply engineEvent_sleep.
    assert (attempt = 1 \/ attempt = 2) as [-> | ->] by lia; set_solver.
Qed.

Lemma retryLoop_steps (domains : list string) page query wanted attempts lastErr
    (found : gmap string DomainResult) w :
  query ∈ domains -> Forall (fun attempt => attempt <= 2) attempts ->
  steps (engineEvent domains) w (retryLoop page query wanted attempts lastErr found w).2.
Proof.
  intros Hq. revert lastErr found w. induction attempts as [|attempt attempts IH];
    intros lastErr found w Hall; cbn [retryLoop].
  - apply steps_refl.
  - apply Forall_cons in Hall as [Hle Hall].
    assert (steps (engineEvent domains) w
              (searchAndScrape page query wanted found (backoff query attempt w)).2) as H1.
    { eapply steps_trans; [by apply backoff_steps | by apply searchAndScrape_steps]. }
    destruct (searchAndScrape page query wanted found (backoff query attempt w))
      as [[e1 f1] w1]. simpl in H1.
    destruct e1 as [err1|]; [|done].
    destruct (negb (errors_Is err1 errCloudflareBlocked)); [done|].
    eapply steps_trans; [exact H1 | by apply IH].
Qed.

Lemma searchWithRetry_steps (domains : list string) page query wanted
    (found : gmap string DomainResult) w :
  query ∈ domains ->
  steps (engineEvent domains) w (searchWithRetry page query wanted found w).2.
Proof.
  intros Hq. unfold searchWithRetry.
  assert (Forall (fun attempt => attempt <= 2) (seq 0 maxRetries)) as Hall
    by (repeat constructor).
  pose proof (retryLoop_steps domains page query wanted (seq 0 maxRetries) None found w
                Hq Hall) as H1.
  destruct (retryLoop page query wanted (seq 0 maxRetries) None found w) as [[r f] w1].
  destruct r; done.
Qed.

Lemma followUps_steps (domains : list string) page wanted ds
    (found : gmap string DomainResult) w :
  (forall d, d ∈ ds -> d ∈ domains) ->
  steps (engineEvent domains) w (followUps page wanted ds found w).2.
Proof.
  revert found w. induction ds as [|d ds IH]; intros found w Hsub; cbn [followUps].
  - apply steps_refl.
  - assert (forall d', d' ∈ ds -> d' ∈ domains) as Hsub' by (intros; apply Hsub; set_solver).
    destruct (found !! ToLower d); [by apply IH|].
    assert (steps (engineEvent domains) w
              (searchWithRetry page d wanted found (Sleep (1500 * Millisecond) w)).2) as H1.
    { apply (steps_trans _ _ (Sleep (1500 * Millisecond) w)).
      - apply steps_emit; [apply engineEvent_sleep; set_solver | done].
      - apply searchWithRetry_steps, Hsub. set_solver. }
    destruct (searchWithRetry page d wanted found (Sleep (1500 * Millisecond) w))
      as [[e1 f1] w1]. simpl in H1.
    eapply steps_trans; [|by apply IH].
    destruct e1 as [err1|]; [|done].
    eapply steps_trans; [exact H1 | apply steps_emit; [simpl; set_solver | done]].
Qed.

Lemma checkWithPage_steps page domains w :
  steps (engineEvent domains) w (checkWithPage page domains w).2.
Proof.
  unfold checkWithPage. destruct (domains !! 0) as [d0|] eqn:Hd0; [|apply steps_refl].
  assert (d0 ∈ domains) as Hin by (by eapply list_elem_of_lookup_2).
  pose proof (searchWithRetry_steps domains page d0 (buildWanted domains) ∅ w Hin) as H1.
  destruct (searchWithRetry page d0 (buildWanted domains) ∅ w) as [[e1 f1] w1].
  simpl in H1. destruct e1 as [err1|]; [done|].
  pose proof (followUps_steps domains page (buildWanted domains) domains f1 w1
                (fun d Hd => Hd)) as H2.
  destruct (followUps page (buildWanted domains) domains f1 w1) as [f2 w2].
  simpl in *. eapply steps_trans; eauto.
Qed.

(** *** The count of navigations *)

Lemma searchWithRetry_navs page query wanted (found : gmap string DomainResult) w :
  navs w <= navs (searchWithRetry page query wanted found w).2 <= navs w + 3.
Proof.
  unfold searchWithRetry.
  pose proof (retryLoop_navs page query wanted (seq 0 maxRetries) None found w) as H1.
  destruct (retryLoop page query wanted (seq 0 maxRetries) None found w) as [[r f] w1].
  simpl in H1. destruct r; simpl; lia.
Qed.

Lemma followUps_navs page wanted ds (found : gmap string DomainResult) w :
  navs w <= navs (followUps page wanted ds found w).2 <= navs w + 3 * length ds.
Proof.
  revert found w. induction ds as [|d ds IH]; intros found w; cbn [followUps length].
  - simpl. lia.
  - destruct (found !! ToLower d); [specialize (IH found w); lia|].
    pose proof (searchWithRetry_navs page d wanted found (Sleep (1500 * Millisecond) w))
      as H1.
    destruct (searchWithRetry page d wanted found (Sleep (1500 * Millisecond) w))
      as [[e1 f1] w1]. simpl in H1.
    destruct e1 as [err1|].
    + specialize (IH f1 (emit (warning d err1) w1)).
      change (navs (emit (warning d err1) w1)) with (navs w1) in IH.
      fold (warning d err1). lia.
    + specialize (IH f1 w1). lia.
Qed.

Lemma checkWithPage_navs page domains w :
  navs w <= navs (checkWithPage page domains w).2 <= navs w + 3 + 3 * length domains.
Proof.
  unfold checkWithPage. destruct (domains !! 0) as [d0|]; [|simpl; lia].
  pose proof (searchWithRetry_navs page d0 (buildWanted domains) ∅ w) as H1.
  destruct (searchWithRetry page d0 (buildWanted domains) ∅ w) as [[e1 f1] w1].
  simpl in H1. destruct e1 as [err1|]; [simpl; lia|].
  pose proof (followUps_navs page (buildWanted domains) domains f1 w1) as H2.
  destruct (followUps page (buildWanted domains) domains f1 w1) as [f2 w2].
  simpl in *. lia.
Qed.

Lemma checkWithPage_slept page domains w :
  (slept (trace w) <= slept (trace (checkWithPage page domains w).2)
   <= slept (trace w) + 15 * Second
      + Z.of_nat (length domains) * (1500 * Millisecond + 15 * Second))%Z.
Proof.
  unfold checkWithPage.
  destruct (domains !! 0) as [d0|]; [|cbn [snd]; unfold Second, Millisecond; lia].
  pose proof (searchWithRetry_slept page d0 (buildWanted domains) ∅ w) as H1.
  destruct (searchWithRetry page d0 (buildWanted domains) ∅ w) as [[e1 f1] w1].
  cbn [snd] in H1.
  destruct e1 as [err1|]; [cbn [snd]; unfold Second, Millisecond in *; lia|].
  pose proof (followUps_slept page (buildWanted domains) domains f1 w1) as H2.
  destruct (followUps page (buildWanted domains) domains f1 w1) as [f2 w2].
  cbn [snd] in *. unfold Second, Millisecond in *. lia.
Qed.

(** The world at the end of [CheckDomains]: the searches, then what the
    deferred calls add. *)
Lemma CheckDomains_world pw domains headless w :
  exists w1 tail,
    trace (CheckDomains pw domains headless w).2 = (trace w1 ++ tail)%list /\
    (tail = [] \/ tail = [EPwStop] \/ tail = [EBrowserClose; EPwStop]) /\
    (w1 = w \/ w1 = (checkWithPage (the_page pw) domains w).2).
Proof.
  unfold CheckDomains.
  destruct (run_err pw); [exists w, []; rewrite app_nil_r; auto|].
  destruct (launch_err pw headless); [exists w, [EPwStop]; auto|].
  destruct (newpage_err pw).
  - exists w, [EBrowserClose; EPwStop]. unfold emit. simpl. rewrite <- app_assoc. auto.
  - exists (checkWithPage (the_page pw) domains w).2, [EBrowserClose; EPwStop].
    destruct (checkWithPage (the_page pw) domains w) as [[r f] w1].
    unfold emit. simpl. rewrite <- app_assoc. auto.
Qed.

(** X10. The time one retried search spends in [time.Sleep] is at most
    15 s: 3 s and 6 s of back-off, and at most 2 s of polling in each of
    the three attempts. *)
Theorem searchWithRetry_sleep_budget page query wanted
    (found : gmap string DomainResult) (w : World) :
  exists evs : list Event,
    trace (searchWithRetry page query wanted found w).2 = (trace w ++ evs)%list /\
    (0 <= slept evs <= 15 * Second)%Z.
Proof.
  pose proof (searchWithRetry_slept page query wanted found w) as Hs.
  assert (query ∈ [query]) as Hq by constructor.
  destruct (searchWithRetry_steps [query] page query wanted found w Hq)
    as (evs & Ht & _ & _).
  exists evs. split; [done|]. rewrite Ht, slept_app in Hs. lia.
Qed.

(** X11. The time a whole run spends in [time.Sleep] is at most 15 s for
    the seed search and 16.5 s (the 1.5 s delay and a retried search) for
    each requested domain. *)
Theorem CheckDomains_sleep_budget pw domains headless (w : World) :
  exists evs : list Event,
    trace (CheckDomains pw domains headless w).2 = (trace w ++ evs)%list /\
    (0 <= slept evs
     <= 15 * Second + Z.of_nat (length domains) * (1500 * Millisecond + 15 * Second))%Z.
Proof.
  destruct (CheckDomains_world pw domains headless w) as (w1 & tail & Ht & Htail & Hw1).
  assert (slept tail = 0%Z) as Hz by (destruct Htail as [->|[->| ->]]; done).
  destruct Hw1 as [->| ->].
  - exists tail. split; [done|]. rewrite Hz. unfold Second, Millisecond. lia.
  - destruct (checkWithPage_steps (the_page pw) domains w) as (evs & Hevs & _ & _).
    pose proof (checkWithPage_slept (the_page pw) domains w) as Hs.
    exists (evs ++ tail)%list. split; [by rewrite Ht, Hevs, app_assoc|].
    rewrite Hevs, slept_app in Hs. rewrite slept_app, Hz. lia.
Qed.

(** X12. The deferred calls.  When starting the driver fails nothing is
    done; when launching the browser fails the driver is stopped; when the
    page cannot be made the browser is closed and then the driver stopped.
    Otherwise the run does only what the searches for the requested domains
    do, and ends by closing the browser and then stopping the driver,
    whether it returns results, returns an error or panics. *)
Theorem CheckDomains_teardown pw domains headless (w : World) :
  let w' := (CheckDomains pw domains headless w).2 in
  match run_err pw, launch_err pw headless, newpage_err pw with
  | Some _, _, _ => trace w' = trace w
  | None, Some _, _ => trace w' = (trace w ++ [EPwStop])%list
  | None, None, Some _ => trace w' = (trace w ++ [EBrowserClose; EPwStop])%list
  | None, None, None =>
      exists evs : list Event,
        trace w' = (trace w ++ evs ++ [EBrowserClose; EPwStop])%list /\
        Forall (engineEvent domains) evs
  end.
Proof.
  intros w'. subst w'. unfold CheckDomains.
  destruct (run_err pw); [done|]. destruct (launch_err pw headless); [done|].
  destruct (newpage_err pw).
  - unfold emit. simpl. by rewrite <- app_assoc.
  - destruct (checkWithPage_steps (the_page pw) domains w) as (evs & Hevs & Hall & _).
    destruct (checkWithPage (the_page pw) domains w) as [[r f] w1]. simpl in Hevs.
    exists evs. split; [|done]. unfold emit. simpl. by rewrite Hevs, <- !app_assoc.
Qed.

Lemma navigated_app (evs1 evs2 : list Event) :
  navigated (evs1 ++ evs2) = (navigated evs1 ++ navigated evs2)%list.
Proof. apply omap_app. Qed.

Lemma navigated_engine (domains : list string) (evs : list Event) :
  Forall (engineEvent domains) evs ->
  Forall (fun url => url ∈ searchURL <$> domains) (navigated evs).
Proof.
  induction 1 as [|e evs He _ IH]; [constructor|].
  unfold navigated. cbn [omap list_omap]. destruct e; simpl; try exact IH.
  constructor; [exact He | exact IH].
Qed.

(** X13. Every navigation of a run is to the search URL of a requested
    domain, and there are at most three for the seed search and three for
    each requested domain. *)
Theorem CheckDomains_navigations pw domains headless (w : World) :
  exists urls : list string,
    navigated (trace (CheckDomains pw domains headless w).2)
      = (navigated (trace w) ++ urls)%list /\
    Forall (fun url => url ∈ searchURL <$> domains) urls /\
    length urls <= 3 + 3 * length domains.
Proof.
  destruct (CheckDomains_world pw domains headless w) as (w1 & tail & Ht & Htail & Hw1).
  assert (navigated tail = []) as Hz by (destruct Htail as [->|[->| ->]]; done).
  rewrite Ht, navigated_app, Hz, app_nil_r.
  destruct Hw1 as [->| ->].
  - exists []. rewrite app_nil_r. split_and!; [done | constructor | simpl; lia].
  - destruct (checkWithPage_steps (the_page pw) domains w) as (evs & Hevs & Hall & Hnavs).
    pose proof (checkWithPage_navs (the_page pw) domains w) as Hbound.
    exists (navigated evs). split_and!.
    + by rewrite Hevs, navigated_app.
    + by apply navigated_engine.
    + lia.
Qed.

Lemma searchURL_inj (d1 d2 : string) : searchURL d1 = searchURL d2 -> d1 = d2.
Proof.
  unfold searchURL.
  generalize "https://www.namecheap.com/domains/registration/results/?domain=".
  intros prefix. induction prefix as [|c prefix IH]; [done|].
  rewrite !append_cons. intros [= Heq]. auto.
Qed.

(** The follow-up loop navigates to the URL of no domain whose key is in
    the accumulator when the loop begins. *)
Lemma followUps_not_searched page wanted ds (found : gmap string DomainResult) w :
  exists evs : list Event,
    trace (followUps page wanted ds found w).2 = (trace w ++ evs)%list /\
    forall d, is_Some (found !! ToLower d) -> searchURL d ∉ navigated evs.
Proof.
  revert found w. induction ds as [|d0 ds IH]; intros found w; cbn [followUps].
  - exists []. rewrite app_nil_r. split; [done|]. intros d _ Hin. by apply elem_of_nil in Hin.
  - destruct (found !! ToLower d0) as [r0|] eqn:Hlook; [apply IH|].
    assert (d0 ∈ [d0]) as Hd0 by constructor.
    destruct (searchWithRetry_steps [d0] page d0 wanted found
                (Sleep (1500 * Millisecond) w) Hd0) as (evs1 & H1 & Hall1 & _).
    pose proof (searchWithRetry_dom page d0 wanted found (Sleep (1500 * Millisecond) w))
      as Hdom.
    destruct (searchWithRetry page d0 wanted found (Sleep (1500 * Millisecond) w))
      as [[e1 f1] w1]. simpl in H1, Hdom.
    set (w1' := match e1 with
                | Some err =>
                    emit (EStderr ("Warning: failed to check %s: %v" ++ LF)
                            [FVal (VStr d0); FErr err]) w1
                | None => w1
                end).
    assert (exists evs1' : list Event,
              trace w1' = (trace w ++ ESleep (1500 * Millisecond) :: evs1 ++ evs1')%list /\
              navigated evs1' = []) as (evs1' & H1' & Hquiet).
    { unfold w1'. destruct e1 as [err|].
      - exists [warning d0 err]. split; [|done]. unfold emit, Sleep in *. simpl in *.
        rewrite H1, <- !app_assoc. done.
      - exists []. split; [|done]. unfold emit, Sleep in *. simpl in *.
        rewrite H1, app_nil_r, <- !app_assoc. done. }
    destruct (IH f1 w1') as (evs2 & H2 & Hnot2).
    exists (ESleep (1500 * Millisecond) :: evs1 ++ evs1' ++ evs2)%list. split.
    + rewrite H2, H1', <- app_assoc. simpl. by rewrite <- app_assoc.
    + intros d Hd Hin.
      change (ESleep (1500 * Millisecond) :: evs1 ++ evs1' ++ evs2)%list
        with ([ESleep (1500 * Millisecond)] ++ evs1 ++ evs1' ++ evs2)%list in Hin.
      rewrite !navigated_app, Hquiet in Hin. simpl in Hin.
      apply elem_of_app in Hin as [Hin|Hin].
      * pose proof (navigated_engine [d0] evs1 Hall1) as Hurls.
        rewrite Forall_forall in Hurls. specialize (Hurls _ Hin).
        apply list_elem_of_fmap in Hurls as (d' & Heq & Hd').
        apply list_elem_of_singleton in Hd' as ->.
        apply searchURL_inj in Heq as ->. rewrite Hlook in Hd. by destruct Hd.
      * apply (Hnot2 d); [|done].
        apply elem_of_dom. apply Hdom. by apply elem_of_dom.
Qed.

(** X14. A domain whose key is in the accumulator is not searched again.
    Once the key of a domain is there, at the start of the loop of the
    follow-up searches or after any part of it, nothing the loop does
    later is a navigation to the search URL of that domain.  And when
    every domain of the list is there at the start, the loop does nothing
    at all. *)
Theorem followUps_skips_found page wanted (found : gmap string DomainResult) (w : World) :
  (forall pre post d,
     is_Some ((followUps page wanted pre found w).1 !! ToLower d) ->
     exists evs : list Event,
       trace (followUps page wanted (pre ++ post) found w).2
         = (trace (followUps page wanted pre found w).2 ++ evs)%list /\
       searchURL d ∉ navigated evs) /\
  (forall domains,
     (forall d, d ∈ domains -> is_Some (found !! ToLower d)) ->
     followUps page wanted domains found w = (found, w)).
Proof.
  split.
  - intros pre post d Hd.
    destruct (followUps_not_searched page wanted post
                (followUps page wanted pre found w).1 (followUps page wanted pre found w).2)
      as (evs & Ht & Hnot).
    exists evs. split; [|by apply Hnot].
    rewrite <- Ht. f_equal.
    clear. revert found w. induction pre as [|d0 pre IH]; intros found w; [done|].
    cbn [app followUps]. destruct (found !! ToLower d0); [apply IH|].
    destruct (searchWithRetry page d0 wanted found (Sleep (1500 * Millisecond) w))
      as [[e1 f1] w1]. apply IH.
  - intros domains. revert w.
    induction domains as [|d domains IH]; intros w Hall; cbn [followUps]; [done|].
    destruct (Hall d) as [r ->]; [constructor|].
    apply IH. intros d' Hd'. apply Hall. by constructor.
Qed.

(** *** What is not found was searched for *)

Lemma searchAndScrape_from_navigate (domains : list string) page query wanted
    (found : gmap string DomainResult) w :
  steps (engineEvent domains) (navigate (searchURL query) w)
    (searchAndScrape page query wanted found w).2.
Proof.
  unfold searchAndScrape.
  destruct (goto_err _); [apply steps_refl|].
  assert (steps (engineEvent domains) (navigate (searchURL query) w)
            (emit (EWaitFor 30000) (navigate (searchURL query) w))) as Hwait
    by (by apply steps_emit).
  destruct (waitfor_err _).
  - assert (steps (engineEvent domains) (navigate (searchURL query) w)
              (emit ETitle (emit (EWaitFor 30000) (navigate (searchURL query) w)))).
    { eapply steps_trans; [exact Hwait | by apply steps_emit]. }
    destruct (Contains _ _); done.
  - assert (steps (engineEvent domains) (navigate (searchURL query) w)
              (emit EAll (stabilize (page (navs w) (searchURL query))
                            (emit (EWaitFor 30000) (navigate (searchURL query) w))))).
    { eapply steps_trans; [exact Hwait|].
      eapply steps_trans; [apply pollLoop_steps | by apply steps_emit]. }
    unfold scrapeResults. destruct (all_articles _); done.
Qed.

Lemma retryLoop_first_goto page query wanted rest lastErr
    (found : gmap string DomainResult) w :
  Forall (fun attempt => attempt <= 2) rest ->
  exists evs : list Event,
    trace (retryLoop page query wanted (0 :: rest) lastErr found w).2
    = (trace w ++ EGoto (searchURL query) :: evs)%list.
Proof.
  intros Hrest. cbn [retryLoop]. rewrite backoff_first.
  destruct (searchAndScrape_from_navigate [query] page query wanted found w)
    as (evs1 & H1 & _ & _).
  destruct (searchAndScrape page query wanted found w) as [[e1 f1] w1]. simpl in H1.
  assert (trace w1 = (trace w ++ EGoto (searchURL query) :: evs1)%list) as H1'.
  { rewrite H1. unfold navigate. simpl. by rewrite <- app_assoc. }
  destruct e1 as [err1|]; [|simpl; eauto].
  destruct (negb (errors_Is err1 errCloudflareBlocked)); [simpl; eauto|].
  assert (query ∈ [query]) as Hq by constructor.
  destruct (retryLoop_steps [query] page query wanted rest (Some err1) f1 w1 Hq Hrest)
    as (evs2 & H2 & _ & _).
  exists (evs1 ++ evs2)%list. rewrite H2, H1', <- app_assoc. done.
Qed.

(** A retried search begins with a navigation to the URL of its query. *)
Lemma searchWithRetry_first_goto page query wanted (found : gmap string DomainResult) w :
  exists evs : list Event,
    trace (searchWithRetry page query wanted found w).2
    = (trace w ++ EGoto (searchURL query) :: evs)%list.
Proof.
  unfold searchWithRetry.
  assert (Forall (fun attempt => attempt <= 2) [1; 2]) as Hrest by (repeat constructor).
  destruct (retryLoop_first_goto page query wanted [1; 2] None found w Hrest) as (evs & Hevs).
  change (seq 0 maxRetries) with [0; 1; 2].
  destruct (retryLoop page query wanted [0; 1; 2] None found w) as [[r f] w1].
  simpl in Hevs. exists evs. destruct r; done.
Qed.

Lemma followUps_searched page wanted ds (found : gmap string DomainResult) w :
  exists evs : list Event,
    trace (followUps page wanted ds found w).2 = (trace w ++ evs)%list /\
    forall d, d ∈ ds ->
      is_Some ((followUps page wanted ds found w).1 !! ToLower d) \/
      searchURL d ∈ navigated evs.
Proof.
  revert found w. induction ds as [|d ds IH]; intros found w; cbn [followUps].
  - exists []. rewrite app_nil_r. split; [done|]. intros d Hd. by apply elem_of_nil in Hd.
  - destruct (found !! ToLower d) as [r|] eqn:Hlook.
    + destruct (IH found w) as (evs & Ht & Hall). exists evs. split; [done|].
      intros d' Hd'. apply elem_of_cons in Hd' as [->|Hd']; [|by apply Hall].
      left. apply elem_of_dom.
      apply (followUps_dom page wanted ds found w), elem_of_dom. by eexists.
    + destruct (searchWithRetry_first_goto page d wanted found
                  (Sleep (1500 * Millisecond) w)) as (evs1 & H1).
      destruct (searchWithRetry page d wanted found (Sleep (1500 * Millisecond) w))
        as [[e1 f1] w1]. simpl in H1.
      set (w1' := match e1 with
                  | Some err => emit (warning d err) w1
                  | None => w1
                  end).
      assert (exists evs1' : list Event,
                trace w1' = (trace w ++ ESleep (1500 * Millisecond)
                               :: EGoto (searchURL d) :: evs1')%list) as (evs1' & H1').
      { unfold w1'. destruct e1 as [err|].
        - exists (evs1 ++ [warning d err])%list. unfold emit, Sleep in *. simpl in *.
          rewrite H1, <- !app_assoc. done.
        - exists evs1. unfold emit, Sleep in *. simpl in *. rewrite H1, <- !app_assoc. done. }
      assert (followUps page wanted ds f1
                match e1 with
                | Some err =>
                    emit (EStderr ("Warning: failed to check %s: %v" ++ LF)
                            [FVal (VStr d); FErr err]) w1
                | None => w1
                end = followUps page wanted ds f1 w1') as -> by done.
      destruct (IH f1 w1') as (evs2 & H2 & Hall).
      exists (ESleep (1500 * Millisecond) :: EGoto (searchURL d) :: evs1' ++ evs2)%list.
      split.
      * rewrite H2, H1', <- app_assoc. done.
      * intros d' Hd'. apply elem_of_cons in Hd' as [->|Hd'].
        -- right. unfold navigated. cbn [omap list_omap urlOf]. set_solver.
        -- destruct (Hall d' Hd') as [?|Hin]; [by left|right].
           change (ESleep (1500 * Millisecond) :: EGoto (searchURL d) :: evs1' ++ evs2)%list
             with ([ESleep (1500 * Millisecond); EGoto (searchURL d)] ++ evs1' ++ evs2)%list.
           rewrite !navigated_app. set_solver.
Qed.

(** X15. When the searches of a run are over, every requested domain whose
    key is not in the accumulator has been searched for by its own name. *)
Theorem unfound_was_searched page domains (w w' : World) results
    (found : gmap string DomainResult) :
  checkWithPage page domains w = (Returned (Ok results), found, w') ->
  exists evs : list Event,
    trace w' = (trace w ++ evs)%list /\
    forall d, d ∈ domains -> found !! ToLower d = None ->
      searchURL d ∈ navigated evs.
Proof.
  unfold checkWithPage. destruct (domains !! 0) as [d0|]; [|done].
  destruct (searchWithRetry_steps [d0] page d0 (buildWanted domains) ∅ w)
    as (evs1 & H1 & _ & _); [set_solver|].
  destruct (searchWithRetry page d0 (buildWanted domains) ∅ w) as [[e1 f1] w1].
  simpl in H1. destruct e1 as [err1|]; [done|].
  destruct (followUps_searched page (buildWanted domains) domains f1 w1)
    as (evs2 & H2 & Hall).
  destruct (followUps page (buildWanted domains) domains f1 w1) as [f2 w2].
  simpl in *. intros [= <- <- <-].
  exists (evs1 ++ evs2)%list. split; [by rewrite H2, H1, app_assoc|].
  intros d Hd Hnone. destruct (Hall d Hd) as [[r Hr]|Hin]; [congruence|].
  rewrite navigated_app. set_solver.
Qed.

(** X16. [CheckDomains] returns an error only for a failure of the set-up
    of the browser or of the seed search, each wrapped with its step; a
    failure of a follow-up search is never returned. *)
Theorem CheckDomains_errors pw domains headless (w : World) (e : error) :
  (CheckDomains pw domains headless w).1 = Returned (Err e) ->
  (exists err, run_err pw = Some err /\
     e = Errorf "launching playwright: %w" [] (Some err)) \/
  (exists err, launch_err pw headless = Some err /\
     e = Errorf "launching browser: %w" [] (Some err)) \/
  (exists err, newpage_err pw = Some err /\
     e = Errorf "creating page: %w" [] (Some err)) \/
  (exists d0 err,
     domains !! 0 = Some d0 /\
     (searchWithRetry (the_page pw) d0 (buildWanted domains) ∅ w).1.1 = Some err /\
     e = Errorf "searching for %s: %w" [VStr d0] (Some err)).
Proof.
  unfold CheckDomains.
  destruct (run_err pw) as [err|]; [intros [= <-]; eauto|].
  destruct (launch_err pw headless) as [err|]; [intros [= <-]; eauto 6|].
  destruct (newpage_err pw) as [err|]; [intros [= <-]; eauto 8|].
  unfold checkWithPage. destruct (domains !! 0) as [d0|] eqn:Hd0; [|done].
  destruct (searchWithRetry _ _ _ _ _) as [[e1 f1] w1] eqn:Hseed.
  destruct e1 as [err1|].
  - intros [= <-]. do 3 right. exists d0, err1. by rewrite Hseed.
  - destruct (followUps _ _ _ _ _) as [f2 w2]. done.
Qed.

Lemma buildWanted_lookup (acc : gmap string bool) domains k :
  foldl (fun wanted d => <[ToLower d := true]> wanted) acc domains !! k
  = if decide (k ∈ ToLower <$> domains) then Some true else acc !! k.
Proof.
  revert acc. induction domains as [|d domains IH]; intros acc; simpl.
  - destruct (decide (k ∈ [])) as [Hin|]; [by apply elem_of_nil in Hin | done].
  - rewrite IH. destruct (decide (k ∈ ToLower <$> domains)) as [Hin|Hnot].
    + rewrite decide_True; [done | by apply elem_of_cons; right].
    + destruct (decide (k = ToLower d)) as [->|Hne].
      * rewrite lookup_insert_eq. rewrite decide_True; [done | by apply elem_of_cons; left].
      * rewrite lookup_insert_ne by done. rewrite decide_False; [done|].
        intros Hin. apply elem_of_cons in Hin as [?|?]; done.
Qed.

(** X17. The map [wanted] holds exactly the lower-cased requested domains,
    each with the value [true]: no key is mapped to [false]. *)
Theorem buildWanted_exact domains (k : string) :
  buildWanted domains !! k
  = if decide (k ∈ ToLower <$> domains) then Some true else None.
Proof. unfold buildWanted. by rewrite buildWanted_lookup, lookup_empty. Qed.

(** X18. If one of the arguments is not accepted by [domainRegex], [main]
    names the first such argument on standard error and exits with code 1;
    the browser is not started and nothing else is done. *)
Theorem main_rejects_invalid pw args visible (w : World) (d : string) :
  d ∈ args -> MatchString domainRegex d = false ->
  exists front bad back,
    args = (front ++ bad :: back)%list /\
    Forall (fun a => MatchString domainRegex a = true) front /\
    MatchString domainRegex bad = false /\
    main pw args visible w
    = (Exit 1, emit (EStderr ("Invalid domain: %s" ++ LF) [FVal (VStr bad)]) w).
Proof.
  intros Hin Hbad. unfold main.
  destruct args as [|a args]; [by apply elem_of_nil in Hin|].
  cbn [length Nat.eqb].
  assert (exists front bad back,
            a :: args = (front ++ bad :: back)%list /\
            Forall (fun a => MatchString domainRegex a = true) front /\
            MatchString domainRegex bad = false /\
            List.find (fun d => negb (MatchString domainRegex d)) (a :: args) = Some bad)
    as (front & bad & back & Heq & Hfront & Hb & Hfind).
  { clear w. revert Hin. generalize (a :: args). intros l.
    induction l as [|x l IH]; intros Hin; [by apply elem_of_nil in Hin|].
    destruct (MatchString domainRegex x) eqn:Hx.
    - apply elem_of_cons in Hin as [->|Hin]; [congruence|].
      destruct (IH Hin) as (front & bad & back & -> & Hfront & Hb & Hfind).
      exists (x :: front), bad, back. split_and!; try done.
      + by constructor.
      + simpl. by rewrite Hx.
    - exists [], x, l. split_and!; try done. simpl. by rewrite Hx. }
  rewrite Hfind. exists front, bad, back. done.
Qed.


End RunMore.

(** ** These theorems at work *)

Lemma accepted_domain_bytes_witness :
  MatchString domainRegex "cool-project.co.uk" = true /\
  allChars (fun c => alnum_hyphen c || dot c) "cool-project.co.uk" = true.
Proof.
  assert (MatchString domainRegex "cool-project.co.uk" = true) as Hm
    by (vm_compute; reflexivity).
  split; [exact Hm|]. exact (proj1 (accepted_domain_bytes _ Hm)).
Defined.

Lemma padded_aligned_witness :
  let short := mkDomainResult "a.io" StatusTaken "" in
  let long := mkDomainResult "example.com" StatusAvailable "$10.98/yr" in
  short ∈ [short; long] /\
  (exists longest, longest ∈ [short; long] /\ len (Domain longest) = maxLen [short; long]) /\
  (forall r', r' ∈ [short; long] -> (len (Domain r') <= maxLen [short; long])%Z) /\
  exists pad,
    padded (maxLen [short; long]) short = Returned ("a.io" ++ pad) /\
    allChars (fun c => Ascii.eqb c " ") pad = true /\
    len ("a.io" ++ pad) = maxLen [short; long].
Proof.
  intros short long.
  assert (short ∈ [short; long]) as Hin by constructor.
  split; [exact Hin|]. exact (padded_aligned [short; long] short Hin).
Defined.

Lemma parseArticle_price_witness :
  parseArticle availableArticle
    = (mkDomainResult "a.com" StatusAvailable "$9.98/yr", None) /\
  parseArticle takenArticle = (mkDomainResult "a.com" StatusTaken "", None) /\
  Price (mkDomainResult "a.com" StatusAvailable "$9.98/yr") = TrimSpace "$9.98/yr" /\
  Price (mkDomainResult "a.com" StatusTaken "") = "".
Proof.
  assert (parseArticle availableArticle
          = (mkDomainResult "a.com" StatusAvailable "$9.98/yr", None)) as Hwith
    by (vm_compute; reflexivity).
  assert (parseArticle takenArticle = (mkDomainResult "a.com" StatusTaken "", None))
    as Hwithout by (vm_compute; reflexivity).
  split_and!; [exact Hwith | exact Hwithout | |].
  - exact (parseArticle_price availableArticle _ Hwith).
  - exact (parseArticle_price takenArticle _ Hwithout).
Defined.

Lemma searchWithRetry_blocked_witness :
  let call := searchWithRetry challengePage "x.dev" (buildWanted ["x.dev"]) ∅ w0 in
  let e := Errorf "giving up after %d attempts: %w" [VInt 3]
             (Some (Errorf "%w: page stuck on challenge for %s" [VStr "x.dev"]
                      (Some errCloudflareBlocked))) in
  call = (Some e, call.1.2, call.2) /\
  call.1.2 = ∅ /\ navs call.2 = navs w0 + 3.
Proof.
  intros call e.
  assert (call = (Some e, call.1.2, call.2)) as Hcall by (vm_compute; reflexivity).
  destruct (searchWithRetry_blocked challengePage "x.dev" (buildWanted ["x.dev"]) ∅
              call.1.2 w0 call.2 e Hcall) as (Hfound & _ & Hnavs).
  split_and!; [exact Hcall | exact Hfound | exact (Hnavs eq_refl)].
Defined.

Lemma followUps_skips_found_witness :
  let found : gmap string DomainResult :=
    <["a.com" := mkDomainResult "a.com" StatusTaken ""]> ∅ in
  let wanted := buildWanted ["A.com"; "b.com"] in
  is_Some ((followUps fanoutPage wanted [] found w0).1 !! ToLower "A.com") /\
  exists evs : list Event,
    trace (followUps fanoutPage wanted ([] ++ ["A.com"; "b.com"]) found w0).2
      = (trace (followUps fanoutPage wanted [] found w0).2 ++ evs)%list /\
    searchURL "A.com" ∉ navigated evs.
Proof.
  intros found wanted.
  assert (is_Some ((followUps fanoutPage wanted [] found w0).1 !! ToLower "A.com"))
    as Hsome.
  { exists (mkDomainResult "a.com" StatusTaken ""). vm_compute. reflexivity. }
  split; [exact Hsome|].
  exact (proj1 (followUps_skips_found fanoutPage wanted found w0)
           [] ["A.com"; "b.com"] "A.com" Hsome).
Defined.

Lemma unfound_was_searched_witness :
  let run := checkWithPage fanoutPage ["a.com"; "b.com"] w0 in
  let results := [mkDomainResult "a.com" StatusTaken "";
                  mkDomainResult "b.com" StatusUnknown ""] in
  run = (Returned (Ok results), run.1.2, run.2) /\
  run.1.2 !! ToLower "b.com" = None /\
  exists evs : list Event,
    trace run.2 = (trace w0 ++ evs)%list /\ searchURL "b.com" ∈ navigated evs.
Proof.
  intros run results.
  assert (run = (Returned (Ok results), run.1.2, run.2)) as Hrun
    by (vm_compute; reflexivity).
  assert (run.1.2 !! ToLower "b.com" = None) as Hnone by (vm_compute; reflexivity).
  split_and!; [exact Hrun | exact Hnone |].
  destruct (unfound_was_searched fanoutPage ["a.com"; "b.com"] w0 run.2 results run.1.2 Hrun)
    as (evs & Htrace & Hall).
  exists evs. split; [exact Htrace|].
  apply Hall; [|exact Hnone]. apply list_elem_of_further, list_elem_of_here.
Defined.

Lemma CheckDomains_errors_witness :
  let e := Errorf "searching for %s: %w" [VStr "x.dev"]
             (Some (Errorf "giving up after %d attempts: %w" [VInt 3]
                (Some (Errorf "%w: page stuck on challenge for %s" [VStr "x.dev"]
                   (Some errCloudflareBlocked))))) in
  (CheckDomains (pwOf challengePage) ["x.dev"] true w0).1 = Returned (Err e) /\
  exists d0 err,
    ["x.dev"] !! 0 = Some d0 /\
    (searchWithRetry challengePage d0 (buildWanted ["x.dev"]) ∅ w0).1.1 = Some err /\
    e = Errorf "searching for %s: %w" [VStr d0] (Some err).
Proof.
  intros e.
  assert ((CheckDomains (pwOf challengePage) ["x.dev"] true w0).1 = Returned (Err e))
    as Hrun by (vm_compute; reflexivity).
  split; [exact Hrun|].
  destruct (CheckDomains_errors (pwOf challengePage) ["x.dev"] true w0 e Hrun)
    as [(err & Hno & _)|[(err & Hno & _)|[(err & Hno & _)|Hseed]]];
    [discriminate Hno | discriminate Hno | discriminate Hno | exact Hseed].
Defined.

Lemma main_rejects_invalid_witness :
  "bad domain" ∈ ["a.com"; "bad domain"; "c"] /\
  MatchString domainRegex "bad domain" = false /\
  exists front bad back,
    ["a.com"; "bad domain"; "c"] = (front ++ bad :: back)%list /\
    Forall (fun a => MatchString domainRegex a = true) front /\
    MatchString domainRegex bad = false /\
    main (pwOf examplePage) ["a.com"; "bad domain"; "c"] false w0
    = (Exit 1, emit (EStderr ("Invalid domain: %s" ++ LF) [FVal (VStr bad)]) w0).
Proof.
  assert ("bad domain" ∈ ["a.com"; "bad domain"; "c"]) as Hin
    by (apply list_elem_of_further, list_elem_of_here).
  assert (MatchString domainRegex "bad domain" = false) as Hbad
    by (vm_compute; reflexivity).
  split_and!; [exact Hin | exact Hbad |].
  exact (main_rejects_invalid (pwOf examplePage) _ false w0 "bad domain" Hin Hbad).
Defined.

(** ** The seed query *)

Section SeedQuery.
Context `{GoStrings}.

(** X20. Once the browser is set up, the first thing a run does is to
    navigate to the search URL of the first input domain, as it was given. *)
Theorem seed_query_first pw d0 rest headless (w : World) :
  run_err pw = None -> launch_err pw headless = None -> newpage_err pw = None ->
  exists evs : list Event,
    trace (CheckDomains pw (d0 :: rest) headless w).2
    = (trace w ++ EGoto (searchURL d0) :: evs)%list.
Proof.
  intros Hrun Hlaunch Hnew. unfold CheckDomains, checkWithPage.
  rewrite Hrun, Hlaunch, Hnew. cbn [lookup list_lookup].
  destruct (searchWithRetry_first_goto (the_page pw) d0 (buildWanted (d0 :: rest)) ∅ w)
    as (evs1 & H1).
  destruct (searchWithRetry (the_page pw) d0 (buildWanted (d0 :: rest)) ∅ w)
    as [[e1 f1] w1]. simpl in H1.
  destruct e1 as [err1|].
  - exists (evs1 ++ [EBrowserClose; EPwStop])%list. unfold emit. simpl.
    rewrite H1, <- !app_assoc. done.
  - destruct (followUps_steps (d0 :: rest) (the_page pw) (buildWanted (d0 :: rest))
                (d0 :: rest) f1 w1 (fun d Hd => Hd)) as (evs2 & H2 & _ & _).
    destruct (followUps (the_page pw) (buildWanted (d0 :: rest)) (d0 :: rest) f1 w1)
      as [f2 w2]. simpl in H2.
    exists (evs1 ++ evs2 ++ [EBrowserClose; EPwStop])%list. unfold emit. simpl.
    rewrite H2, H1, <- !app_assoc. done.
Qed.

End SeedQuery.

Lemma seed_query_first_witness :
  (run_err (pwOf fanoutPage) = None /\ launch_err (pwOf fanoutPage) true = None /\
   newpage_err (pwOf fanoutPage) = None) /\
  exists evs : list Event,
    trace (CheckDomains (pwOf fanoutPage) ["a.com"; "b.com"; "b.io"] true w0).2
    = (trace w0 ++ EGoto (searchURL "a.com") :: evs)%list.
Proof.
  split; [split_and!; reflexivity|].
  exact (seed_query_first (pwOf fanoutPage) "a.com" ["b.com"; "b.io"] true w0
           eq_refl eq_refl eq_refl).
Defined.

(** ** The accumulator and the pages of a run *)

Section Accumulation.
Context `{GoStrings}.

Lemma visited_app (page : Page) (n : nat) (urls1 urls2 : list string) :
  visited page n (urls1 ++ urls2)
  = (visited page n urls1 ++ visited page (n + length urls1) urls2)%list.
Proof.
  revert n. induction urls1 as [|url urls1 IH]; intros n; simpl.
  - by rewrite Nat.add_0_r.
  - rewrite IH, <- app_assoc. by replace (S n + length urls1) with (n + S (length urls1)) by lia.
Qed.

Lemma accumulates_refl page wanted (found : gmap string DomainResult) w :
  accumulates page wanted found w found w.
Proof. exists []. simpl. rewrite app_nil_r. split_and!; [done | lia | done]. Qed.

Lemma accumulates_trans page wanted (f1 f2 f3 : gmap string DomainResult) w1 w2 w3 :
  accumulates page wanted f1 w1 f2 w2 -> accumulates page wanted f2 w2 f3 w3 ->
  accumulates page wanted f1 w1 f3 w3.
Proof.
  intros (evs1 & Ht1 & Hn1 & ->) (evs2 & Ht2 & Hn2 & ->).
  exists (evs1 ++ evs2)%list. split_and!.
  - by rewrite Ht2, Ht1, app_assoc.
  - rewrite navigated_app, length_app. lia.
  - by rewrite navigated_app, visited_app, foldl_app, Hn1.
Qed.

(** Events that are no navigation leave the accumulator alone. *)
Lemma accumulates_quiet page wanted (found : gmap string DomainResult) w w' evs :
  trace w' = (trace w ++ evs)%list -> navs w' = navs w -> navigated evs = [] ->
  accumulates page wanted found w found w'.
Proof.
  intros Ht Hn Hq. exists evs. rewrite Hq. simpl. split_and!; [done | lia | done].
Qed.

Lemma accumulates_emit page wanted (found : gmap string DomainResult) w e :
  urlOf e = None -> accumulates page wanted found w found (emit e w).
Proof.
  intros He. apply (accumulates_quiet _ _ _ _ _ [e]); [done | done |].
  unfold navigated. simpl. by rewrite He.
Qed.

Lemma navigated_pollEvents (m : nat) : navigated (pollEvents m) = [].
Proof.
  induction m as [|m IH]; [done|].
  change (pollEvents (S m)) with (ESleep (400 * Millisecond) :: ECount :: pollEvents m).
  exact IH.
Qed.

Lemma backoff_accumulates page wanted (found : gmap string DomainResult) query attempt w :
  accumulates page wanted found w found (backoff query attempt w).
Proof.
  unfold backoff. destruct (0 <? attempt); [|apply accumulates_refl].
  eapply accumulates_trans; by apply accumulates_emit.
Qed.

Lemma searchAndScrape_accumulates page query wanted (found : gmap string DomainResult) w :
  accumulates page wanted found w
    (searchAndScrape page query wanted found w).1.2
    (searchAndScrape page query wanted found w).2.
Proof.
  unfold searchAndScrape, accumulates.
  set (url := searchURL query). set (loaded := page (navs w) url).
  destruct (goto_err loaded) as [err|] eqn:Hgoto.
  - exists [EGoto url]. simpl. fold loaded. unfold scrapedAt. rewrite Hgoto.
    split_and!; [done | lia | done].
  - destruct (waitfor_err loaded) as [err|] eqn:Hwait.
    + exists [EGoto url; EWaitFor 30000; ETitle].
      assert (visited page (navs w) (navigated [EGoto url; EWaitFor 30000; ETitle]) = [])
        as Hv.
      { simpl. fold loaded. unfold scrapedAt. by rewrite Hgoto, Hwait. }
      destruct (Contains _ _); simpl trace; simpl navs; rewrite Hv;
        (split_and!; [by rewrite <- !app_assoc | simpl; lia | done]).
    + destruct (pollLoop_spec loaded 5 0 0 (emit (EWaitFor 30000) (navigate url w)) eq_refl)
        as (m & _ & _ & Heq & _).
      unfold stabilize. rewrite Heq.
      exists ([EGoto url; EWaitFor 30000] ++ pollEvents m ++ [EAll])%list.
      assert (navigated ([EGoto url; EWaitFor 30000] ++ pollEvents m ++ [EAll]) = [url])
        as Hnav.
      { rewrite !navigated_app, navigated_pollEvents. done. }
      rewrite Hnav. simpl visited. fold loaded.
      unfold scrapedAt. rewrite Hgoto, Hwait.
      unfold scrapeResults. destruct (all_articles loaded) as [articles|e]; simpl.
      * rewrite app_nil_r. split_and!; [by rewrite <- !app_assoc | lia | done].
      * split_and!; [by rewrite <- !app_assoc | lia | done].
Qed.

Lemma retryLoop_accumulates page query wanted attempts lastErr
    (found : gmap string DomainResult) w :
  accumulates page wanted found w
    (retryLoop page query wanted attempts lastErr found w).1.2
    (retryLoop page query wanted attempts lastErr found w).2.
Proof.
  revert lastErr found w. induction attempts as [|attempt attempts IH];
    intros lastErr found w; cbn [retryLoop].
  - apply accumulates_refl.
  - pose proof (searchAndScrape_accumulates page query wanted found
                  (backoff query attempt w)) as H1.
    pose proof (backoff_accumulates page wanted found query attempt w) as H0.
    destruct (searchAndScrape page query wanted found (backoff query attempt w))
      as [[e1 f1] w1]. simpl in H1.
    assert (accumulates page wanted found w f1 w1) as H01
      by (eapply accumulates_trans; eauto).
    destruct e1 as [err1|]; [|done].
    destruct (negb (errors_Is err1 errCloudflareBlocked)); [done|].
    eapply accumulates_trans; [exact H01 | apply IH].
Qed.

Lemma searchWithRetry_accumulates page query wanted (found : gmap string DomainResult) w :
  accumulates page wanted found w
    (searchWithRetry page query wanted found w).1.2
    (searchWithRetry page query wanted found w).2.
Proof.
  unfold searchWithRetry.
  pose proof (retryLoop_accumulates page query wanted (seq 0 maxRetries) None found w) as H1.
  destruct (retryLoop page query wanted (seq 0 maxRetries) None found w) as [[r f] w1].
  destruct r; done.
Qed.

Lemma followUps_accumulates page wanted domains (found : gmap string DomainResult) w :
  accumulates page wanted found w
    (followUps page wanted domains found w).1
    (followUps page wanted domains found w).2.
Proof.
  revert found w. induction domains as [|d domains IH]; intros found w; cbn [followUps].
  - apply accumulates_refl.
  - destruct (found !! ToLower d); [apply IH|].
    pose proof (searchWithRetry_accumulates page d wanted found
                  (Sleep (1500 * Millisecond) w)) as H1.
    destruct (searchWithRetry page d wanted found (Sleep (1500 * Millisecond) w))
      as [[e1 f1] w1]. simpl in H1.
    assert (accumulates page wanted found w f1 w1) as H01.
    { eapply accumulates_trans; [|exact H1]. by apply accumulates_emit. }
    eapply accumulates_trans; [|apply IH].
    destruct e1 as [err1|]; [|done].
    eapply accumulates_trans; [exact H01 | by apply accumulates_emit].
Qed.

Lemma followUps_app page wanted pre post (found : gmap string DomainResult) w :
  followUps page wanted (pre ++ post) found w
  = followUps page wanted post
      (followUps page wanted pre found w).1 (followUps page wanted pre found w).2.
Proof.
  revert found w. induction pre as [|d pre IH]; intros found w; [done|].
  cbn [app followUps]. destruct (found !! ToLower d); [apply IH|].
  destruct (searchWithRetry page d wanted found (Sleep (1500 * Millisecond) w))
    as [[e1 f1] w1]. apply IH.
Qed.

(** The entry of a key after the elements [seen] have been taken in. *)
Lemma accumulated_lookup wanted (found : gmap string DomainResult) seen k :
  foldl (scrapeArticle wanted) found seen !! k =
  match last (omap (matchFor wanted k) seen) with
  | Some r => Some r
  | None => found !! k
  end.
Proof. apply scrapeArticles_lookup. Qed.

(** The last match of a key is the result of an element that was seen. *)
Lemma last_match_seen wanted k seen r :
  last (omap (matchFor wanted k) seen) = Some r ->
  ToLower (Domain r) = k /\
  exists article, article ∈ seen /\ parseArticle article = (r, None).
Proof.
  intros Hlast. apply last_Some_elem_of in Hlast.
  apply list_elem_of_omap in Hlast as (article & Hin & Hmatch).
  unfold matchFor in Hmatch. destruct (parseArticle article) as [r' [e|]] eqn:E; [done|].
  destruct (wanted_at wanted k && bool_decide (ToLower (Domain r') = k)) eqn:Hb; [|done].
  injection Hmatch as ->. apply andb_true_iff in Hb as [_ Hk].
  apply bool_decide_eq_true in Hk. eauto.
Qed.

Lemma checkWithPage_accumulates page domains w :
  accumulates page (buildWanted domains) ∅ w
    (checkWithPage page domains w).1.2 (checkWithPage page domains w).2.
Proof.
  unfold checkWithPage. destruct (domains !! 0) as [d0|]; [|apply accumulates_refl].
  pose proof (searchWithRetry_accumulates page d0 (buildWanted domains) ∅ w) as H1.
  destruct (searchWithRetry page d0 (buildWanted domains) ∅ w) as [[e1 f1] w1].
  simpl in H1. destruct e1 as [err1|]; [done|].
  pose proof (followUps_accumulates page (buildWanted domains) domains f1 w1) as H2.
  destruct (followUps page (buildWanted domains) domains f1 w1) as [f2 w2].
  simpl in *. eapply accumulates_trans; eauto.
Qed.

Lemma trace_teardown (w : World) :
  trace (emit EPwStop (emit EBrowserClose w)) = (trace w ++ [EBrowserClose; EPwStop])%list.
Proof. unfold emit. simpl. by rewrite <- app_assoc. Qed.

(** A run that returns results: they are read off the accumulator of the
    searches, and the deferred calls come last. *)
Lemma CheckDomains_result pw domains headless w results w' :
  CheckDomains pw domains headless w = (Returned (Ok results), w') ->
  results = resultFor (checkWithPage (the_page pw) domains w).1.2 <$> domains /\
  w' = emit EPwStop (emit EBrowserClose (checkWithPage (the_page pw) domains w).2).
Proof.
  unfold CheckDomains.
  destruct (run_err pw); [done|]. destruct (launch_err pw headless); [done|].
  destruct (newpage_err pw); [done|].
  unfold checkWithPage. destruct (domains !! 0) as [d0|]; [|done].
  destruct (searchWithRetry _ _ _ _ _) as [[e1 f1] w1].
  destruct e1 as [err1|]; [done|].
  destruct (followUps _ _ _ _ _) as [f2 w2].
  intros [= <- <-]. simpl. by rewrite buildResults_map.
Qed.

(** C2 (amended). When [CheckDomains] returns results, there is one per
    input, in the order of the input.  The i-th result is read off the
    elements of the pages the run has listed, in the order of the listing:
    it is the result parsed from the last of those elements whose
    lower-cased domain is the lower-cased i-th input, so that its domain is
    the text the page shows, equal to the input once both are lower-cased;
    and when no such element was seen it is the input string itself, in
    its own casing, with status Unknown and no price. *)
Theorem CheckDomains_output pw domains headless (w w' : World) results :
  CheckDomains pw domains headless w = (Returned (Ok results), w') ->
  exists evs : list Event,
    trace w' = (trace w ++ evs)%list /\
    let seen := visited (the_page pw) (navs w) (navigated evs) in
    length results = length domains /\
    forall i d,
      domains !! i = Some d ->
      match last (omap (matchFor (buildWanted domains) (ToLower d)) seen) with
      | Some r =>
          results !! i = Some r /\ ToLower (Domain r) = ToLower d /\
          exists article, article ∈ seen /\ parseArticle article = (r, None)
      | None => results !! i = Some (mkDomainResult d StatusUnknown "")
      end.
Proof.
  intros Hrun. apply CheckDomains_result in Hrun as [-> ->].
  destruct (checkWithPage_accumulates (the_page pw) domains w) as (evs & Ht & _ & Hfound).
  exists (evs ++ [EBrowserClose; EPwStop])%list. split.
  { unfold emit. simpl. by rewrite Ht, <- !app_assoc. }
  rewrite navigated_app. simpl navigated at 2. rewrite app_nil_r.
  split; [by rewrite length_fmap|].
  intros i d Hd. rewrite list_lookup_fmap, Hd. simpl. unfold resultFor.
  rewrite Hfound, accumulated_lookup, lookup_empty.
  destruct (last (omap (matchFor (buildWanted domains) (ToLower d))
                    (visited (the_page pw) (navs w) (navigated evs)))) as [r|] eqn:Hlast;
    [|done].
  split; [done|]. by apply (last_match_seen (buildWanted domains)).
Qed.

(** C8 (amended). With the browser set up: a failure of the seed search
    ends the run with an error around it.  A follow-up search that fails
    leaves the accumulator as it was, writes a warning, and the loop goes
    on with the remaining domains; at the end of the loop every key has the
    last match among the elements the later searches have listed, or what
    it had before.  Once the seed search has succeeded the run returns
    results, one per input, read off the accumulator at the end.  So the
    domain of a follow-up search that failed is given with the result of
    the last element, of the pages listed after the failure, that matches
    its key, and with status Unknown and no price when there is none. *)
Theorem followUp_failure_recovered pw domains headless (w : World) :
  run_err pw = None -> launch_err pw headless = None -> newpage_err pw = None ->
  let page := the_page pw in
  let wanted := buildWanted domains in
  (forall d0 err f1 w1,
     domains !! 0 = Some d0 ->
     searchWithRetry page d0 wanted ∅ w = (Some err, f1, w1) ->
     CheckDomains pw domains headless w =
       (Returned (Err (Errorf "searching for %s: %w" [VStr d0] (Some err))),
        emit EPwStop (emit EBrowserClose w1))) /\
  (forall d rest (found : gmap string DomainResult) w0 err f1 w1,
     found !! ToLower d = None ->
     searchWithRetry page d wanted found (Sleep (1500 * Millisecond) w0) = (Some err, f1, w1) ->
     f1 = found /\
     followUps page wanted (d :: rest) found w0 =
       followUps page wanted rest found (emit (warning d err) w1) /\
     exists evs : list Event,
       trace (followUps page wanted (d :: rest) found w0).2
         = (trace w1 ++ warning d err :: evs)%list /\
       forall k,
         (followUps page wanted (d :: rest) found w0).1 !! k =
         match last (omap (matchFor wanted k) (visited page (navs w1) (navigated evs))) with
         | Some r => Some r
         | None => found !! k
         end) /\
  (forall d0 f1 w1,
     domains !! 0 = Some d0 ->
     searchWithRetry page d0 wanted ∅ w = (None, f1, w1) ->
     exists found w2 results,
       followUps page wanted domains f1 w1 = (found, w2) /\
       CheckDomains pw domains headless w =
         (Returned (Ok results), emit EPwStop (emit EBrowserClose w2)) /\
       length results = length domains /\
       forall i d, domains !! i = Some d ->
         results !! i = Some (match found !! ToLower d with
                              | Some r => r
                              | None => mkDomainResult d StatusUnknown ""
                              end)) /\
  (forall d0 pre d rest f1 w1 err f3 w3,
     domains = (pre ++ d :: rest)%list ->
     domains !! 0 = Some d0 ->
     searchWithRetry page d0 wanted ∅ w = (None, f1, w1) ->
     (followUps page wanted pre f1 w1).1 !! ToLower d = None ->
     searchWithRetry page d wanted (followUps page wanted pre f1 w1).1
       (Sleep (1500 * Millisecond) (followUps page wanted pre f1 w1).2)
       = (Some err, f3, w3) ->
     exists (evs : list Event) results w',
       CheckDomains pw domains headless w = (Returned (Ok results), w') /\
       trace w' = (trace w3 ++ warning d err :: evs)%list /\
       results !! length pre =
         Some (match last (omap (matchFor wanted (ToLower d))
                             (visited page (navs w3) (navigated evs))) with
               | Some r => r
               | None => mkDomainResult d StatusUnknown ""
               end)).
Proof.
  intros Hrun Hlaunch Hnew page wanted.
  assert (forall d rest (found : gmap string DomainResult) w0 err f1 w1,
     found !! ToLower d = None ->
     searchWithRetry page d wanted found (Sleep (1500 * Millisecond) w0) = (Some err, f1, w1) ->
     f1 = found /\
     followUps page wanted (d :: rest) found w0 =
       followUps page wanted rest found (emit (warning d err) w1) /\
     exists evs : list Event,
       trace (followUps page wanted (d :: rest) found w0).2
         = (trace w1 ++ warning d err :: evs)%list /\
       forall k,
         (followUps page wanted (d :: rest) found w0).1 !! k =
         match last (omap (matchFor wanted k) (visited page (navs w1) (navigated evs))) with
         | Some r => Some r
         | None => found !! k
         end) as Hstep.
  { intros d rest found w0 err f1 w1 Hnone Hfail.
    assert (f1 = found) as -> by (eapply searchWithRetry_error; exact Hfail).
    assert (followUps page wanted (d :: rest) found w0 =
            followUps page wanted rest found (emit (warning d err) w1)) as Heq.
    { cbn [followUps]. by rewrite Hnone, Hfail. }
    split_and!; [done | done |]. rewrite Heq.
    destruct (followUps_accumulates page wanted rest found (emit (warning d err) w1))
      as (evs & Ht & _ & Hf).
    exists evs. split.
    - rewrite Ht. unfold emit. simpl. by rewrite <- app_assoc.
    - intros k. rewrite Hf. apply accumulated_lookup. }
  assert (forall d0 f1 w1,
     domains !! 0 = Some d0 ->
     searchWithRetry page d0 wanted ∅ w = (None, f1, w1) ->
     CheckDomains pw domains headless w =
       (Returned (Ok (resultFor (followUps page wanted domains f1 w1).1 <$> domains)),
        emit EPwStop (emit EBrowserClose (followUps page wanted domains f1 w1).2))) as Hok.
  { intros d0 f1 w1 Hd0 Hseed. unfold CheckDomains, checkWithPage.
    rewrite Hrun, Hlaunch, Hnew, Hd0. fold page wanted. rewrite Hseed.
    destruct (followUps page wanted domains f1 w1) as [found w2]. simpl.
    by rewrite buildResults_map. }
  split_and!.
  - intros d0 err f1 w1 Hd0 Hseed. unfold CheckDomains, checkWithPage.
    rewrite Hrun, Hlaunch, Hnew, Hd0. fold page wanted. by rewrite Hseed.
  - exact Hstep.
  - intros d0 f1 w1 Hd0 Hseed. rewrite (Hok d0 f1 w1 Hd0 Hseed).
    destruct (followUps page wanted domains f1 w1) as [found w2]. simpl.
    exists found, w2, (resultFor found <$> domains).
    split_and!; [done | done | by rewrite length_fmap |].
    intros i d Hd. by rewrite list_lookup_fmap, Hd.
  - intros d0 pre d rest f1 w1 err f3 w3 Hdomains Hd0 Hseed Hnone Hfail.
    rewrite (Hok d0 f1 w1 Hd0 Hseed).
    destruct (Hstep d rest _ _ err f3 w3 Hnone Hfail) as (_ & _ & evs & Ht & Hlook).
    assert (followUps page wanted domains f1 w1 =
            followUps page wanted (d :: rest)
              (followUps page wanted pre f1 w1).1 (followUps page wanted pre f1 w1).2)
      as Hsplit by (rewrite Hdomains; apply followUps_app).
    rewrite Hsplit.
    exists (evs ++ [EBrowserClose; EPwStop])%list. eexists _, _.
    split_and!; [reflexivity | |].
    + rewrite trace_teardown, Ht, <- !app_assoc. done.
    + rewrite navigated_app. simpl navigated at 2. rewrite app_nil_r.
      rewrite list_lookup_fmap.
      assert (domains !! length pre = Some d) as ->.
      { rewrite Hdomains. by rewrite list_lookup_middle. }
      simpl. unfold resultFor. rewrite Hlook, Hnone.
      by destruct (last _).
Qed.

End Accumulation.

(** ** The output at work *)

(** The page shows "example.com" for the input "Example.COM": the result
    is the one parsed from the page. *)
Lemma CheckDomains_output_witness :
  let pw := pwOf examplePage in
  let run := CheckDomains pw ["Example.COM"] true w0 in
  let r := mkDomainResult "example.com" StatusAvailable "$10.98/yr" in
  run = (Returned (Ok [r]), run.2) /\
  exists evs : list Event,
    trace run.2 = (trace w0 ++ evs)%list /\
    let seen := visited (the_page pw) (navs w0) (navigated evs) in
    length [r] = length ["Example.COM"] /\
    match last (omap (matchFor (buildWanted ["Example.COM"]) (ToLower "Example.COM")) seen) with
    | Some r' =>
        [r] !! 0 = Some r' /\ ToLower (Domain r') = ToLower "Example.COM" /\
        exists article, article ∈ seen /\ parseArticle article = (r', None)
    | None => [r] !! 0 = Some (mkDomainResult "Example.COM" StatusUnknown "")
    end.
Proof.
  intros pw run r.
  assert (run = (Returned (Ok [r]), run.2)) as Hrun by (vm_compute; reflexivity).
  split; [exact Hrun|].
  destruct (CheckDomains_output pw ["Example.COM"] true w0 run.2 [r] Hrun)
    as (evs & Htrace & Hlen & Hall).
  exists evs. split; [exact Htrace|]. split; [exact Hlen|].
  exact (Hall 0 "Example.COM" eq_refl).
Defined.

(** The follow-up search for "b.com" fails; the search for "b.io" that
    comes after lists "b.com" too, and the output has that result. *)
Lemma followUp_failure_recovered_witness :
  let pw := pwOf fanoutPage in
  let domains := ["a.com"; "b.com"; "b.io"] in
  let wanted := buildWanted domains in
  let seed := searchWithRetry fanoutPage "a.com" wanted ∅ w0 in
  let before := followUps fanoutPage wanted ["a.com"] seed.1.2 seed.2 in
  let second := searchWithRetry fanoutPage "b.com" wanted before.1
                  (Sleep (1500 * Millisecond) before.2) in
  (run_err pw = None /\ launch_err pw true = None /\ newpage_err pw = None) /\
  (seed = (None, seed.1.2, seed.2) /\
   before.1 !! ToLower "b.com" = None /\
   second = (Some (rateLimited "b.com"), second.1.2, second.2)) /\
  exists (evs : list Event) results w',
    CheckDomains pw domains true w0 = (Returned (Ok results), w') /\
    trace w' = (trace second.2 ++ warning "b.com" (rateLimited "b.com") :: evs)%list /\
    results !! 1 =
      Some (match last (omap (matchFor wanted (ToLower "b.com"))
                          (visited fanoutPage (navs second.2) (navigated evs))) with
            | Some r => r
            | None => mkDomainResult "b.com" StatusUnknown ""
            end).
Proof.
  intros pw domains wanted seed before second.
  assert (seed = (None, seed.1.2, seed.2)) as Hseed by (vm_compute; reflexivity).
  assert (before.1 !! ToLower "b.com" = None) as Hnone by (vm_compute; reflexivity).
  assert (second = (Some (rateLimited "b.com"), second.1.2, second.2)) as Hsecond
    by (vm_compute; reflexivity).
  split; [split_and!; reflexivity|]. split; [split_and!; assumption|].
  destruct (followUp_failure_recovered pw domains true w0 eq_refl eq_refl eq_refl)
    as (_ & _ & _ & Hlater).
  exact (Hlater "a.com" ["a.com"] "b.com" ["b.io"] seed.1.2 seed.2
           (rateLimited "b.com") second.1.2 second.2 eq_refl eq_refl Hseed Hnone Hsecond).
Defined.
